(** * Agentforce streaming bridge: token cache, authenticated requests, SSE decoding

    A shallow embedding of [auth_manager.py] (class [AuthManager]) and of
    [agentforce_client.py] (class [AgentforceClient]).  The network, the
    clock and the elicitation provider are scripted in a [World]; every
    method is a function from a world to an outcome and a new world.  What
    a generator yields, and what the process sends, is appended to the trace
    of the world, so the order of fragments, requests and elicitations can
    be read off it.

    Conventions: time is counted in whole seconds, and an integer added to
    the clock must fit a float; [raise_for_status]
    raises on every status outside 200..299; the general statements take
    [json.loads] and [json.dumps] as parameters, the concrete runs use the
    reader and the writer defined here. *)

From Stdlib Require Import ZArith String Ascii List Bool Lia DecimalString.
Import ListNotations.
Open Scope string_scope.
Open Scope Z_scope.

(** ** JSON values, as [json.loads] builds them

    A Python [dict] keeps one value per key, in insertion order: [JObj]
    holds the items in that order.  Numbers are the integers; [None] is
    [JNull]. *)

#[local] Set Warnings "-register-all".

Inductive json : Type :=
  | JNull
  | JBool (b : bool)
  | JNum (n : Z)
  | JStr (s : string)
  | JArr (items : list json)
  | JObj (fields : list (string * json)).

(** [d[key]] and [d.get(key)] on the items of a dict. *)
Fixpoint obj_lookup (key : string) (fields : list (string * json)) : option json :=
  match fields with
  | [] => None
  | (k, v) :: rest => if String.eqb k key then Some v else obj_lookup key rest
  end.

(** [d[key] = v]: an existing key keeps its place. *)
Fixpoint obj_set (key : string) (v : json) (fields : list (string * json))
  : list (string * json) :=
  match fields with
  | [] => [(key, v)]
  | (k, w) :: rest =>
      if String.eqb k key then (k, v) :: rest else (k, w) :: obj_set key v rest
  end.

(** Python truthiness, as [if self._access_token] uses it. *)
Definition truthy (v : json) : bool :=
  match v with
  | JNull => false
  | JBool b => b
  | JNum n => negb (n =? 0)
  | JStr s => negb (String.eqb s EmptyString)
  | JArr l => match l with [] => false | _ => true end
  | JObj l => match l with [] => false | _ => true end
  end.

(** [x == "..."] for a value [x] and a string literal. *)
Definition is_str (lit : string) (v : json) : bool :=
  match v with
  | JStr s => String.eqb s lit
  | _ => false
  end.

(** ** String helpers of the line reader *)

Definition nl : string := String (ascii_of_nat 10) EmptyString.

Definition dquote : string := String (ascii_of_nat 34) EmptyString.

Definition ascii_in (c : ascii) (set : string) : bool :=
  existsb (Ascii.eqb c) (list_ascii_of_string set).

(** The characters [str.strip()] removes, among the code points below 256:
    those for which [str.isspace()] holds. *)
Definition is_py_space (c : ascii) : bool :=
  let n := nat_of_ascii c in
  ((9 <=? n) && (n <=? 13) || (28 <=? n) && (n <=? 32)
   || (n =? 133) || (n =? 160))%nat.

Fixpoint drop_while (p : ascii -> bool) (s : string) : string :=
  match s with
  | EmptyString => EmptyString
  | String c rest => if p c then drop_while p rest else s
  end.

Definition rev_string (s : string) : string :=
  string_of_list_ascii (rev (list_ascii_of_string s)).

(** [s.lstrip(chars)]: drops leading characters that belong to [chars]. *)
Definition lstrip_chars (chars s : string) : string :=
  drop_while (fun c => ascii_in c chars) s.

(** [s.strip()] *)
Definition strip (s : string) : string :=
  rev_string (drop_while is_py_space (rev_string (drop_while is_py_space s))).

(** [s.startswith(p)] *)
Definition startswith (p s : string) : bool := String.prefix p s.

(** [line.lstrip("data:").strip()] *)
Definition sse_payload (line : string) : string :=
  strip (lstrip_chars "data:" line).

(** ** [json.dumps(v, indent=2)]

    Strings are escaped as [ensure_ascii] does, a character being a code
    point below 256; items are
    separated by a comma and a newline, keys by a colon and a space, and an
    empty list or dict is written closed on one line. *)

Definition string_of_Z (n : Z) : string := NilZero.string_of_int (Z.to_int n).

Definition hex_digit (n : nat) : ascii :=
  ascii_of_nat (if (n <? 10)%nat then 48 + n else 87 + n)%nat.

Definition escape_char (c : ascii) : string :=
  let n := nat_of_ascii c in
  if (n =? 34)%nat then "\" ++ dquote else
  if (n =? 92)%nat then "\\" else
  if (n =? 10)%nat then "\n" else
  if (n =? 13)%nat then "\r" else
  if (n =? 9)%nat then "\t" else
  if (n =? 8)%nat then "\b" else
  if (n =? 12)%nat then "\f" else
  if ((n <? 32) || (126 <? n))%nat then
    "\u00" ++ String (hex_digit (n / 16)) (String (hex_digit (n mod 16)) EmptyString)
  else String c EmptyString.

Fixpoint escape_string (s : string) : string :=
  match s with
  | EmptyString => EmptyString
  | String c rest => escape_char c ++ escape_string rest
  end.

Definition quoted (s : string) : string := dquote ++ escape_string s ++ dquote.

Fixpoint spaces (n : nat) : string :=
  match n with
  | O => EmptyString
  | S k => String " " (spaces k)
  end.

(** A newline followed by the indentation of nesting level [lvl]. *)
Definition newline_indent (lvl : nat) : string := nl ++ spaces (2 * lvl).

Fixpoint dumps_at (lvl : nat) (v : json) : string :=
  match v with
  | JNull => "null"
  | JBool true => "true"
  | JBool false => "false"
  | JNum n => string_of_Z n
  | JStr s => quoted s
  | JArr [] => "[]"
  | JArr (x :: xs) =>
      "[" ++ newline_indent (S lvl) ++ dumps_at (S lvl) x
      ++ (fix items (l : list json) : string :=
            match l with
            | [] => EmptyString
            | y :: ys =>
                "," ++ newline_indent (S lvl) ++ dumps_at (S lvl) y ++ items ys
            end) xs
      ++ newline_indent lvl ++ "]"
  | JObj [] => "{}"
  | JObj ((k, x) :: xs) =>
      "{" ++ newline_indent (S lvl) ++ quoted k ++ ": " ++ dumps_at (S lvl) x
      ++ (fix items (l : list (string * json)) : string :=
            match l with
            | [] => EmptyString
            | (k', y) :: ys =>
                "," ++ newline_indent (S lvl) ++ quoted k' ++ ": "
                ++ dumps_at (S lvl) y ++ items ys
            end) xs
      ++ newline_indent lvl ++ "}"
  end.

(** [json.dumps(v, indent=2)] *)
Definition json_dumps_indent2 (v : json) : string := dumps_at 0 v.

(** ** [json.loads]

    A recursive-descent reader for the JSON texts whose numbers are integers
    and whose strings use the two-character escapes.  [None] stands for
    [json.JSONDecodeError]. *)

Definition is_json_ws (c : ascii) : bool :=
  let n := nat_of_ascii c in
  ((n =? 32) || (n =? 9) || (n =? 10) || (n =? 13))%nat.

Definition skip_ws (s : string) : string := drop_while is_json_ws s.

Definition is_digit (c : ascii) : bool :=
  let n := nat_of_ascii c in ((48 <=? n) && (n <=? 57))%nat.

Definition unescape (e : ascii) : option ascii :=
  let n := nat_of_ascii e in
  if (n =? 34)%nat then Some e else
  if (n =? 92)%nat then Some e else
  if (n =? 47)%nat then Some e else
  if (n =? 98)%nat then Some (ascii_of_nat 8) else
  if (n =? 102)%nat then Some (ascii_of_nat 12) else
  if (n =? 110)%nat then Some (ascii_of_nat 10) else
  if (n =? 114)%nat then Some (ascii_of_nat 13) else
  if (n =? 116)%nat then Some (ascii_of_nat 9) else None.

(** The characters of a string literal after its opening quote. *)
Fixpoint parse_string_body (s : string) : option (string * string) :=
  match s with
  | EmptyString => None
  | String c rest =>
      let n := nat_of_ascii c in
      if (n =? 34)%nat then Some (EmptyString, rest)
      else if (n =? 92)%nat then
        match rest with
        | EmptyString => None
        | String e rest' =>
            match unescape e, parse_string_body rest' with
            | Some c', Some (body, tl) => Some (String c' body, tl)
            | _, _ => None
            end
        end
      else if (n <? 32)%nat then None
      else
        match parse_string_body rest with
        | Some (body, tl) => Some (String c body, tl)
        | None => None
        end
  end.

Fixpoint take_digits (s : string) (acc : Z) : Z * string :=
  match s with
  | String c rest =>
      if is_digit c
      then take_digits rest (10 * acc + Z.of_nat (nat_of_ascii c - 48))
      else (acc, s)
  | EmptyString => (acc, s)
  end.

Definition starts_fraction (s : string) : bool :=
  match s with
  | String c _ => ascii_in c ".eE"
  | EmptyString => false
  end.

(** An integer literal without its sign: a lone [0], or digits that do not
    start with [0]; a fraction or an exponent is outside the reader. *)
Definition parse_nat_lit (s : string) : option (Z * string) :=
  match s with
  | String c rest =>
      if is_digit c then
        let '(n, tl) :=
          if (nat_of_ascii c =? 48)%nat then (0, rest) else take_digits s 0 in
        if starts_fraction tl then None else Some (n, tl)
      else None
  | EmptyString => None
  end.

Definition strip_prefix (p s : string) : option string :=
  if String.prefix p s
  then Some (String.substring (String.length p) (String.length s - String.length p) s)
  else None.

Definition head_is (n : nat) (s : string) : option string :=
  match s with
  | String c rest => if (nat_of_ascii c =? n)%nat then Some rest else None
  | EmptyString => None
  end.

Fixpoint parse_value (fuel : nat) (s : string) : option (json * string) :=
  match fuel with
  | O => None
  | S fuel' =>
      match s with
      | EmptyString => None
      | String c rest =>
          let n := nat_of_ascii c in
          if (n =? 34)%nat then
            match parse_string_body rest with
            | Some (body, tl) => Some (JStr body, tl)
            | None => None
            end
          else if (n =? 91)%nat then
            match head_is 93 (skip_ws rest) with
            | Some tl => Some (JArr [], tl)
            | None =>
                match parse_elems fuel' (skip_ws rest) with
                | Some (items, tl) => Some (JArr items, tl)
                | None => None
                end
            end
          else if (n =? 123)%nat then
            match head_is 125 (skip_ws rest) with
            | Some tl => Some (JObj [], tl)
            | None =>
                match parse_members fuel' (skip_ws rest) [] with
                | Some (fields, tl) => Some (JObj fields, tl)
                | None => None
                end
            end
          else if (n =? 45)%nat then
            match parse_nat_lit rest with
            | Some (k, tl) => Some (JNum (- k), tl)
            | None => None
            end
          else if is_digit c then
            match parse_nat_lit s with
            | Some (k, tl) => Some (JNum k, tl)
            | None => None
            end
          else
            match strip_prefix "true" s, strip_prefix "false" s, strip_prefix "null" s with
            | Some tl, _, _ => Some (JBool true, tl)
            | _, Some tl, _ => Some (JBool false, tl)
            | _, _, Some tl => Some (JNull, tl)
            | _, _, _ => None
            end
      end
  end

(** The items of a list after [[], up to and including the closing bracket. *)
with parse_elems (fuel : nat) (s : string) : option (list json * string) :=
  match fuel with
  | O => None
  | S fuel' =>
      match parse_value fuel' s with
      | None => None
      | Some (v, tl) =>
          match head_is 44 (skip_ws tl), head_is 93 (skip_ws tl) with
          | Some more, _ =>
              match parse_elems fuel' (skip_ws more) with
              | Some (vs, tl') => Some (v :: vs, tl')
              | None => None
              end
          | None, Some tl' => Some ([v], tl')
          | None, None => None
          end
      end
  end

(** The members of an object after its opening brace, up to and including
    the closing brace; a repeated key keeps its place and takes the later
    value. *)
with parse_members (fuel : nat) (s : string) (acc : list (string * json))
  : option (list (string * json) * string) :=
  match fuel with
  | O => None
  | S fuel' =>
      match head_is 34 s with
      | None => None
      | Some rest =>
          match parse_string_body rest with
          | None => None
          | Some (key, tl) =>
              match head_is 58 (skip_ws tl) with
              | None => None
              | Some tl1 =>
                  match parse_value fuel' (skip_ws tl1) with
                  | None => None
                  | Some (v, tl2) =>
                      let acc' := obj_set key v acc in
                      match head_is 44 (skip_ws tl2), head_is 125 (skip_ws tl2) with
                      | Some more, _ => parse_members fuel' (skip_ws more) acc'
                      | None, Some tl' => Some (acc', tl')
                      | None, None => None
                      end
                  end
              end
          end
      end
  end.

(** [json.loads(s)]: one value, with blanks allowed around it. *)
Definition json_loads (s : string) : option json :=
  match parse_value (2 * String.length s + 2) (skip_ws s) with
  | Some (v, tl) =>
      match skip_ws tl with
      | EmptyString => Some v
      | _ => None
      end
  | None => None
  end.

(** A string literal between double quotes, for writing JSON texts. *)
Definition q (s : string) : string := dquote ++ s ++ dquote.

Definition chunk_line : string :=
  "data: {" ++ q "message" ++ ":{" ++ q "type" ++ ":" ++ q "TextChunk" ++ ","
  ++ q "message" ++ ":" ++ q "Hi" ++ "}}".

Definition inform_line : string :=
  "data: {" ++ q "message" ++ ":{" ++ q "type" ++ ":" ++ q "Inform" ++ ","
  ++ q "result" ++ ":{" ++ q "a" ++ ":1}}}".

(** ** Exceptions

    Both classes raise [RuntimeError]; its three messages are kept apart:
    [OAuthTokenError] and [AcquireFailed] come from [AuthManager],
    [ApiHttpError] from [AgentforceClient._authenticated_request]. *)

Inductive exn : Type :=
  | OAuthTokenError (status : Z) (body : string)
  | AcquireFailed (cause : exn)
  | ApiHttpError (status : Z) (body : string)
  | HTTPStatusError (status : Z) (body : string)
  | TransportError
  | JSONDecodeError
  | KeyError (key : string)
  | TypeError
  | AttributeError
  | OverflowError
  | RecursionError.

Inductive outcome (A : Type) : Type :=
  | Ok (a : A)
  | Raise (e : exn).
Arguments Ok {A} a.
Arguments Raise {A} e.

(** ** The world outside the process *)

Inductive http_reply : Type :=
  | NoReply
  | Reply (status : Z) (body : string).

Inductive stream_reply : Type :=
  | NoStream
  | Stream (status : Z) (body : string) (lines : list string).

(** The result of [ctx.elicit(question, response_type=str)]. *)
Inductive elicitation : Type :=
  | Accepted (data : string)
  | Declined
  | Cancelled.

Definition action (e : elicitation) : string :=
  match e with
  | Accepted _ => "accept"
  | Declined => "decline"
  | Cancelled => "cancel"
  end.

Inductive event : Type :=
  | TokenPost
  | ApiRequest (method url : string) (bearer : json)
  | StreamOpen (session_id message : string) (bearer : json)
  | Yield (fragment : json)
  | Notify (text : json)
  | Elicit (question : json)
  | WarnNotJson.

(** The fields of [AuthManager] that change, the scripted replies of the
    three endpoints (an exhausted script is a connection failure), the
    clock behind [time.time()], the elicitation provider, and the trace of
    what the process did, oldest first. *)
Record World : Type := mkWorld {
  access_token : json;
  expires_at : Z;
  clock : nat -> Z;
  clock_reads : nat;
  token_endpoint : list http_reply;
  api_endpoint : list http_reply;
  stream_endpoint : list stream_reply;
  elicit_provider : nat -> json -> elicitation;
  elicit_calls : nat;
  trace : list event
}.

Definition M (A : Type) : Type := World -> outcome A * World.

Definition ret {A} (a : A) : M A := fun w => (Ok a, w).
Definition raise {A} (e : exn) : M A := fun w => (Raise e, w).
Definition bind {A B} (m : M A) (f : A -> M B) : M B :=
  fun w => match m w with
           | (Ok a, w') => f a w'
           | (Raise e, w') => (Raise e, w')
           end.

Notation "x <- m ;; k" := (bind m (fun x => k))
  (at level 61, m at next level, right associativity).
Notation "m ;;; k" := (bind m (fun _ => k))
  (at level 61, right associativity).

Definition emit (e : event) : M unit := fun w =>
  (Ok tt, mkWorld (access_token w) (expires_at w) (clock w) (clock_reads w)
            (token_endpoint w) (api_endpoint w) (stream_endpoint w)
            (elicit_provider w) (elicit_calls w) (trace w ++ [e])).

(** [time.time()] *)
Definition time_time : M Z := fun w =>
  (Ok (clock w (clock_reads w)),
   mkWorld (access_token w) (expires_at w) (clock w) (S (clock_reads w))
     (token_endpoint w) (api_endpoint w) (stream_endpoint w)
     (elicit_provider w) (elicit_calls w) (trace w)).

Definition set_access_token (v : json) : M unit := fun w =>
  (Ok tt, mkWorld v (expires_at w) (clock w) (clock_reads w)
            (token_endpoint w) (api_endpoint w) (stream_endpoint w)
            (elicit_provider w) (elicit_calls w) (trace w)).

Definition set_expires_at (t : Z) : M unit := fun w =>
  (Ok tt, mkWorld (access_token w) t (clock w) (clock_reads w)
            (token_endpoint w) (api_endpoint w) (stream_endpoint w)
            (elicit_provider w) (elicit_calls w) (trace w)).

Definition get_access_token : M json := fun w => (Ok (access_token w), w).
Definition get_expires_at : M Z := fun w => (Ok (expires_at w), w).

(** [client.post(self.token_url, ...)] *)
Definition post_token : M http_reply := fun w =>
  let w' := mkWorld (access_token w) (expires_at w) (clock w) (clock_reads w)
              (tl (token_endpoint w)) (api_endpoint w) (stream_endpoint w)
              (elicit_provider w) (elicit_calls w) (trace w ++ [TokenPost]) in
  (Ok (hd NoReply (token_endpoint w)), w').

(** [client.request(method, url, headers=headers, ...)] *)
Definition client_request (method url : string) (bearer : json) : M http_reply :=
  fun w =>
  let w' := mkWorld (access_token w) (expires_at w) (clock w) (clock_reads w)
              (token_endpoint w) (tl (api_endpoint w)) (stream_endpoint w)
              (elicit_provider w) (elicit_calls w)
              (trace w ++ [ApiRequest method url bearer]) in
  (Ok (hd NoReply (api_endpoint w)), w').

(** [ctx.elicit(question, response_type=str)] *)
Definition ctx_elicit (question : json) : M elicitation := fun w =>
  (Ok (elicit_provider w (elicit_calls w) question),
   mkWorld (access_token w) (expires_at w) (clock w) (clock_reads w)
     (token_endpoint w) (api_endpoint w) (stream_endpoint w)
     (elicit_provider w) (S (elicit_calls w)) (trace w ++ [Elicit question])).

(** [response.is_success], which [raise_for_status] tests. *)
Definition is_success (status : Z) : bool := (200 <=? status) && (status <=? 299).

(** [v[key]] for a string key *)
Definition getitem (v : json) (key : string) : M json :=
  match v with
  | JObj fields =>
      match obj_lookup key fields with
      | Some x => ret x
      | None => raise (KeyError key)
      end
  | _ => raise TypeError
  end.

(** [v.get(key)], [None] when the key is absent *)
Definition dict_get (v : json) (key : string) : M json :=
  match v with
  | JObj fields =>
      match obj_lookup key fields with
      | Some x => ret x
      | None => ret JNull
      end
  | _ => raise AttributeError
  end.

(** [try: m except ...: h]: [handler e] is the clause that catches [e], if
    one does. *)
Definition try_except {A} (m : M A) (handler : exn -> option (M A)) : M A :=
  fun w => match m w with
           | (Ok a, w') => (Ok a, w')
           | (Raise e, w') =>
               match handler e with
               | Some h => h w'
               | None => (Raise e, w')
               end
           end.

(** [response.raise_for_status()] *)
Definition raise_for_status (status : Z) (body : string) : M unit :=
  if is_success status then ret tt else raise (HTTPStatusError status body).

(** The integers from [float_limit] on, and their opposites, are too large
    to convert to a float. *)
Definition float_limit : Z := 2 ^ 1024 - 2 ^ 970.

Definition fits_float (n : Z) : bool := Z.abs n <? float_limit.
#[local] Arguments fits_float : simpl never.

(** [time.time() + expires_in]: the clock is read first, then the sum is
    taken; an integer is converted to a float, which raises [OverflowError]
    when it is too large; [True] and [False] count as 1 and 0; other values
    do not add to a float. *)
Definition now_plus (v : json) : M Z :=
  now <- time_time ;;
  match v with
  | JNum n => if fits_float n then ret (now + n) else raise OverflowError
  | JBool b => ret (now + (if b then 1 else 0))
  | _ => raise TypeError
  end.

(** [client.stream("POST", url, json=payload, headers=headers)] *)
Definition client_stream (session_id message : string) (bearer : json)
  : M stream_reply := fun w =>
  let w' := mkWorld (access_token w) (expires_at w) (clock w) (clock_reads w)
              (token_endpoint w) (api_endpoint w) (tl (stream_endpoint w))
              (elicit_provider w) (elicit_calls w)
              (trace w ++ [StreamOpen session_id message bearer]) in
  (Ok (hd NoStream (stream_endpoint w)), w').

(** The answer text of an accepted elicitation ([elicitation.data]). *)
Definition data (e : elicitation) : string :=
  match e with
  | Accepted d => d
  | _ => EmptyString
  end.

(** ** Scripted worlds and lines used as test inputs *)

Definition inquire_line : string :=
  "data: {" ++ q "message" ++ ":{" ++ q "type" ++ ":" ++ q "Inquire" ++ ","
  ++ q "message" ++ ":" ++ q "Which city?" ++ "}}".

Definition progress_line : string :=
  "data: {" ++ q "message" ++ ":{" ++ q "type" ++ ":" ++ q "ProgressIndicator" ++ ","
  ++ q "message" ++ ":" ++ q "Thinking" ++ "}}".

Definition bad_line : string := "data: not-json".

(** A [TextChunk] event without its [message], an [Inform] event without
    its [result]. *)
Definition chunk_line_no_message : string :=
  "data: {" ++ q "message" ++ ":{" ++ q "type" ++ ":" ++ q "TextChunk" ++ "}}".

Definition inform_line_no_result : string :=
  "data: {" ++ q "message" ++ ":{" ++ q "type" ++ ":" ++ q "Inform" ++ "}}".

Definition inform_fragment : json :=
  JStr (nl ++ nl ++ "{" ++ nl ++ "  " ++ q "a" ++ ": 1" ++ nl ++ "}").

Definition paris_fragment : json := JStr (nl ++ nl ++ "Paris" ++ nl ++ nl).

(** Token replies: a complete one, one without [expires_in], one whose
    [expires_in] is a string. *)
Definition token_body : string :=
  "{" ++ q "access_token" ++ ":" ++ q "T1" ++ "," ++ q "expires_in" ++ ":7200}".

Definition token_body_no_expiry : string :=
  "{" ++ q "access_token" ++ ":" ++ q "T1" ++ "}".

Definition token_body_text_expiry : string :=
  "{" ++ q "access_token" ++ ":" ++ q "T1" ++ "," ++ q "expires_in" ++ ":" ++ q "7200" ++ "}".

(** A world whose clock stands at 1000. *)
Definition scripted (tok : json) (exp : Z) (tokens api : list http_reply)
  (streams : list stream_reply) (answer : elicitation) : World :=
  mkWorld tok exp (fun _ => 1000) 0 tokens api streams (fun _ _ => answer) 0 [].

(** Nothing cached, nothing scripted. *)
Definition world_idle : World := scripted JNull 0 [] [] [] Cancelled.

(** The stream opened for the answer, alone. *)
Definition world_answer_stream : World :=
  scripted (JStr "T0") 5000 [] [] [Stream 200 EmptyString [inform_line]] (Accepted "Paris").

(** A cached token good until 5000. *)
Definition world_fresh : World :=
  scripted (JStr "T0") 5000 [Reply 200 token_body] [] [] Cancelled.

(** No cached token. *)
Definition world_empty : World :=
  scripted JNull 0 [Reply 200 token_body] [] [] Cancelled.

Definition world_no_expiry : World :=
  scripted JNull 0 [Reply 200 token_body_no_expiry] [] [] Cancelled.

(** The token endpoint answers 200 with an [expires_in] that is a string,
    while a token good until 5000 is cached. *)
Definition world_text_expiry : World :=
  scripted (JStr "T0") 5000 [Reply 200 token_body_text_expiry] [] [] Cancelled.

(** A first reply 401, then 200. *)
Definition world_retry_ok : World :=
  scripted (JStr "T0") 5000 [Reply 200 token_body]
    [Reply 401 "expired"; Reply 200 "done"] [] Cancelled.

(** Two replies 401. *)
Definition world_retry_401 : World :=
  scripted (JStr "T0") 5000 [Reply 200 token_body]
    [Reply 401 "expired"; Reply 401 "still expired"; Reply 200 "never asked"] [] Cancelled.

(** A first reply 401 while the token endpoint is unreachable. *)
Definition world_refresh_fails : World :=
  scripted (JStr "T0") 5000 [] [Reply 401 "expired"; Reply 200 "done"] [] Cancelled.

(** One stream with the two lines of the decoding example. *)
Definition world_decode : World :=
  scripted (JStr "T0") 5000 [] [] [Stream 200 EmptyString [chunk_line; inform_line]] Cancelled.

(** An outer stream that asks and then says [Hi]; the stream opened for
    the answer carries the [Inform] event. *)
Definition world_accept : World :=
  scripted (JStr "T0") 5000 [] []
    [Stream 200 EmptyString [inquire_line; chunk_line];
     Stream 200 EmptyString [inform_line]]
    (Accepted "Paris").

Definition world_decline : World :=
  scripted (JStr "T0") 5000 [] []
    [Stream 200 EmptyString [inquire_line; chunk_line]] Declined.

Definition world_broken_event : World :=
  scripted (JStr "T0") 5000 [] []
    [Stream 200 EmptyString [chunk_line_no_message; chunk_line]] Cancelled.

(** ** Observations of a world, and the vocabulary of the proofs *)

Definition streams_left (w : World) : nat := length (stream_endpoint w).

(** [m] leaves the observation [proj] of the world as it is. *)
Definition preserves {A X} (proj : World -> X) (m : M A) : Prop :=
  forall w, proj (snd (m w)) = proj w.

(** [proj] does not look at the token cache, the clock or the token
    endpoint. *)
Definition auth_blind {X} (proj : World -> X) : Prop :=
  preserves proj post_token /\ preserves proj time_time /\
  (forall v, preserves proj (set_access_token v)) /\
  (forall t, preserves proj (set_expires_at t)).

(** [m] leaves the stream script as it is. *)
Definition keeps {A} (m : M A) : Prop := preserves stream_endpoint m.

(** The two errors of [AuthManager]. *)
Definition is_auth_error (e : exn) : bool :=
  match e with
  | OAuthTokenError _ _ => true
  | AcquireFailed _ => true
  | _ => false
  end.

(** [m] never reports a used-up budget. *)
Definition quiet {A} (m : M A) : Prop :=
  forall w, fst (m w) <> Raise RecursionError.

(** [m] leaves the stream script alone and never reports a used-up
    budget. *)
Definition tame {A} (m : M A) : Prop := keeps m /\ quiet m.

(** [m1] and [m2] do the same from every world with at most [k] stream
    replies left, leave no more replies than they found, and do not report
    a used-up budget. *)
Definition sim {A} (k : nat) (m1 m2 : M A) : Prop :=
  forall w, (streams_left w <= k)%nat ->
    m1 w = m2 w /\ (streams_left (snd (m1 w)) <= streams_left w)%nat
    /\ fst (m1 w) <> Raise RecursionError.

(** The output fragments, in the order they were produced. *)
Fixpoint fragments (t : list event) : list json :=
  match t with
  | [] => []
  | Yield f :: rest => f :: fragments rest
  | _ :: rest => fragments rest
  end.

(** The calls to the token endpoint. *)
Fixpoint token_posts (t : list event) : nat :=
  match t with
  | [] => O
  | TokenPost :: rest => S (token_posts rest)
  | _ :: rest => token_posts rest
  end.

(** The requests sent by [_authenticated_request]. *)
Fixpoint api_requests (t : list event) : nat :=
  match t with
  | [] => O
  | ApiRequest _ _ _ :: rest => S (api_requests rest)
  | _ :: rest => api_requests rest
  end.

(** The world after one reading of the clock. *)
Definition ticked (w : World) : World := snd (time_time w).

(** What [time.time() + token_data.get("expires_in", 3600)] adds to the
    clock, when the sum is defined. *)
Definition expires_seconds (fields : list (string * json)) : option Z :=
  match obj_lookup "expires_in" fields with
  | None => Some 3600
  | Some (JNum n) => if fits_float n then Some n else None
  | Some (JBool b) => Some (if b then 1 else 0)
  | Some _ => None
  end.

(** The world a refresh leaves when it stores [tok] and [secs]. *)
Definition refreshed (w : World) (tok : json) (secs : Z) : World :=
  mkWorld tok (clock w (clock_reads w) + secs) (clock w) (S (clock_reads w))
    (tl (token_endpoint w)) (api_endpoint w) (stream_endpoint w)
    (elicit_provider w) (elicit_calls w) (trace w ++ [TokenPost]).

(** The answer of the [k]-th request still scripted. *)
Definition api_reply (k : nat) (w : World) : http_reply := nth k (api_endpoint w) NoReply.

(** What [raise_for_status] and the [except] clause make of the last
    reply. *)
Definition settle (r : http_reply) : outcome (Z * string) :=
  match r with
  | NoReply => Raise TransportError
  | Reply status body =>
      if is_success status then Ok (status, body) else Raise (ApiHttpError status body)
  end.

(** [m] sends at most [n] requests. *)
Definition sends_at_most {A} (n : nat) (m : M A) : Prop :=
  forall w, (api_requests (trace (snd (m w))) <= api_requests (trace w) + n)%nat.

(** A token reply that is good for 30 seconds only. *)
Definition token_body_short : string :=
  "{" ++ q "access_token" ++ ":" ++ q "T1" ++ "," ++ q "expires_in" ++ ":30}".

(** A first reply 401; the forced refresh gets a token that is stale at
    once, and the token endpoint has no second reply. *)
Definition world_short_token : World :=
  scripted (JStr "T0") 5000 [Reply 200 token_body_short]
    [Reply 401 "expired"; Reply 200 "done"] [] Cancelled.

(** An [Inquire] event without its [message]. *)
Definition inquire_line_no_message : string :=
  "data: {" ++ q "message" ++ ":{" ++ q "type" ++ ":" ++ q "Inquire" ++ "}}".

(** The first question is accepted with [Paris], every later one is
    declined; the stream opened for the answer asks again. *)
Definition world_accept_then_decline : World :=
  mkWorld (JStr "T0") 5000 (fun _ => 1000) 0 [] []
    [Stream 200 EmptyString [inquire_line; chunk_line];
     Stream 200 EmptyString [inquire_line; inform_line]]
    (fun k _ => match k with O => Accepted "Paris" | S _ => Declined end) 0 [].

(** Further scripted inputs. *)
Definition session_body : string := "{" ++ q "sessionId" ++ ":" ++ q "S1" ++ "}".

Definition number_line : string := "data: 5".

Definition other_key_line : string := "data: {" ++ q "other" ++ ":1}".

(** The value of [AGENT_ID] and the text of library exceptions in the
    scripted runs. *)
Definition agent_one : option string := Some "agent-1".

Definition library_text (e : exn) : string := "library error".

(** The token endpoint refuses. *)
Definition world_token_denied : World :=
  scripted (JStr "T0") 5000 [Reply 400 "invalid_client"] [] [] Cancelled.

(** A first reply 500. *)
Definition world_server_error : World :=
  scripted (JStr "T0") 5000 [] [Reply 500 "boom"] [] Cancelled.

(** The stream answers 401. *)
Definition world_stream_401 : World :=
  scripted (JStr "T0") 5000 [Reply 200 token_body] []
    [Stream 401 "expired" [chunk_line]] Cancelled.

(** A session is created, the stream says [Hi], the session is ended. *)
Definition world_ask : World :=
  scripted (JStr "T0") 5000 [] [Reply 200 session_body; Reply 204 EmptyString]
    [Stream 200 EmptyString [chunk_line]] Cancelled.

(** As [world_ask], but the stream breaks after [Hi] and the session
    cannot be ended. *)
Definition world_ask_broken : World :=
  scripted (JStr "T0") 5000 [] [Reply 200 session_body; Reply 500 "no"]
    [Stream 200 EmptyString [chunk_line; chunk_line_no_message]] Cancelled.

(** The session reply has no [sessionId]. *)
Definition world_ask_no_id : World :=
  scripted (JStr "T0") 5000 [] [Reply 200 "{}"]
    [Stream 200 EmptyString [chunk_line]] Cancelled.

(** ** Python's [str()] of values and of exceptions

    An f-string writes a value with [str()]: a string as it is, the other
    values as [repr()] writes them. *)

Definition squote : string := String (ascii_of_nat 39) EmptyString.

Definition hex2 (n : nat) : string :=
  String (hex_digit (n / 16)) (String (hex_digit (n mod 16)) EmptyString).

(** One character inside [repr()] of a string quoted with [quote]. *)
Definition repr_char (quote : nat) (c : ascii) : string :=
  let n := nat_of_ascii c in
  if (n =? 92)%nat then "\\" else
  if (n =? quote)%nat then "\" ++ String c EmptyString else
  if (n =? 10)%nat then "\n" else
  if (n =? 13)%nat then "\r" else
  if (n =? 9)%nat then "\t" else
  if ((n <? 32) || (n =? 127) || ((127 <? n) && (n <? 161)) || (n =? 173))%nat
  then "\x" ++ hex2 n
  else String c EmptyString.

Fixpoint repr_chars (quote : nat) (s : string) : string :=
  match s with
  | EmptyString => EmptyString
  | String c rest => repr_char quote c ++ repr_chars quote rest
  end.

(** [repr(s)]: single quotes, unless [s] has a single quote and no double
    quote. *)
Definition repr_str (s : string) : string :=
  if ascii_in (ascii_of_nat 39) s && negb (ascii_in (ascii_of_nat 34) s)
  then dquote ++ repr_chars 34 s ++ dquote
  else squote ++ repr_chars 39 s ++ squote.

Fixpoint py_repr (v : json) : string :=
  match v with
  | JNull => "None"
  | JBool true => "True"
  | JBool false => "False"
  | JNum n => string_of_Z n
  | JStr s => repr_str s
  | JArr [] => "[]"
  | JArr (x :: xs) =>
      "[" ++ py_repr x
      ++ (fix items (l : list json) : string :=
            match l with
            | [] => EmptyString
            | y :: ys => ", " ++ py_repr y ++ items ys
            end) xs
      ++ "]"
  | JObj [] => "{}"
  | JObj ((k, x) :: xs) =>
      "{" ++ repr_str k ++ ": " ++ py_repr x
      ++ (fix items (l : list (string * json)) : string :=
            match l with
            | [] => EmptyString
            | (k', y) :: ys => ", " ++ repr_str k' ++ ": " ++ py_repr y ++ items ys
            end) xs
      ++ "}"
  end.

(** [str(v)], as [f"{v}"] writes it. *)
Definition py_str (v : json) : string :=
  match v with
  | JStr s => s
  | _ => py_repr v
  end.

(** [os.environ.get(name)] written into an f-string. *)
Definition env_str (v : option string) : string :=
  match v with
  | Some s => s
  | None => "None"
  end.

(** [str(e)]: the three [RuntimeError] messages are those of the sources,
    [str(KeyError(k))] is [repr(k)], and [lib_text] stands for the texts of
    the exceptions raised by the libraries. *)
Fixpoint exn_text (lib_text : exn -> string) (e : exn) : string :=
  match e with
  | OAuthTokenError status body =>
      "OAuth Token Error: HTTP " ++ string_of_Z status ++ ". Response: " ++ body
  | AcquireFailed cause =>
      "Failed to acquire Salesforce access token: " ++ exn_text lib_text cause
  | ApiHttpError status body =>
      "Agentforce API HTTP Error " ++ string_of_Z status ++ ": " ++ body
  | KeyError key => repr_str key
  | _ => lib_text e
  end.

(** [ctx.info(msg)], and likewise [ctx.error] and [ctx.warning]: a message
    to the client, the level not being recorded. *)
Definition ctx_info (msg : string) : M unit := emit (Notify (JStr msg)).

(** Every step of [m] is related by [R] to the world it starts from. *)
Definition steps (R : World -> World -> Prop) {A} (m : M A) : Prop :=
  forall w, R w (snd (m w)).

(** What a stream on session [sid] may add to a trace: no request of
    [_authenticated_request], and streams opened on [sid] only. *)
Definition stream_event (sid : string) (e : event) : Prop :=
  match e with
  | ApiRequest _ _ _ => False
  | StreamOpen s _ _ => s = sid
  | _ => True
  end.

(** [w'] has the trace of [w] followed by events that satisfy [ok]. *)
Definition extends (ok : event -> Prop) (w w' : World) : Prop :=
  exists added, trace w' = (trace w ++ added)%list /\ Forall ok added.

(** What a consumer without a context sees: no elicitation, no notice. *)
Definition silent_event (e : event) : Prop :=
  match e with
  | Elicit _ => False
  | Notify _ => False
  | _ => True
  end.

(** The streams opened. *)
Fixpoint stream_opens (t : list event) : nat :=
  match t with
  | [] => O
  | StreamOpen _ _ _ :: rest => S (stream_opens rest)
  | _ :: rest => stream_opens rest
  end.

(** How a call of [_authenticated_request] may end: with a 2xx reply, with
    an error of [AuthManager], with a connection failure, or with
    [ApiHttpError] for a reply outside 2xx. *)
Definition well_settled (o : outcome (Z * string)) : Prop :=
  match o with
  | Ok (status, _) => is_success status = true
  | Raise e =>
      is_auth_error e = true \/ e = TransportError \/
      exists status body, e = ApiHttpError status body /\ is_success status = false
  end.

Section Bridge.

(** [json.loads] and [json.dumps(_, indent=2)] of the Python library. *)
Variable loads : string -> option json.
Variable dumps : json -> string.

Definition loads_m (s : string) : M json :=
  match loads s with
  | Some v => ret v
  | None => raise JSONDecodeError
  end.

(** *** class AuthManager *)

(** [token_data.get("expires_in", 3600)] *)
Definition get_expires_in (token_data : json) : M json :=
  match token_data with
  | JObj fields =>
      match obj_lookup "expires_in" fields with
      | Some x => ret x
      | None => ret (JNum 3600)
      end
  | _ => raise AttributeError
  end.

(** The body of the [try] of [_fetch_new_token]. *)
Definition fetch_body : M unit :=
  response <- post_token ;;
  match response with
  | NoReply => raise TransportError
  | Reply status body =>
      raise_for_status status body ;;;
      token_data <- loads_m body ;;
      tok <- getitem token_data "access_token" ;;
      set_access_token tok ;;;
      expires_in <- get_expires_in token_data ;;
      t <- now_plus expires_in ;;
      set_expires_at t
  end.

(** [AuthManager._fetch_new_token] *)
Definition _fetch_new_token : M unit :=
  try_except fetch_body
    (fun e => match e with
              | HTTPStatusError status body => Some (raise (OAuthTokenError status body))
              | _ => Some (raise (AcquireFailed e))
              end).

(** [self._access_token and self._expires_at > time.time() + 60] *)
Definition token_is_fresh : M bool :=
  tok <- get_access_token ;;
  if truthy tok then
    exp <- get_expires_at ;;
    now <- time_time ;;
    ret (now + 60 <? exp)
  else ret false.

(** [AuthManager.get_valid_token] *)
Definition get_valid_token : M json :=
  fresh <- token_is_fresh ;;
  if fresh then get_access_token
  else _fetch_new_token ;;; get_access_token.

(** *** class AgentforceClient *)

(** One [client.request] of [_authenticated_request]; a connection failure
    is an exception of httpx that is not an [HTTPStatusError]. *)
Definition do_request (method url : string) (bearer : json) : M (Z * string) :=
  r <- client_request method url bearer ;;
  match r with
  | NoReply => raise TransportError
  | Reply status body => ret (status, body)
  end.

(** [AgentforceClient._authenticated_request] *)
Definition _authenticated_request (method url : string) : M (Z * string) :=
  try_except
    (tok <- get_valid_token ;;
     response <- do_request method url tok ;;
     response' <-
       (if fst response =? 401 then
          _fetch_new_token ;;;
          tok' <- get_valid_token ;;
          do_request method url tok'
        else ret response) ;;
     raise_for_status (fst response') (snd response') ;;;
     ret response')
    (fun e => match e with
              | HTTPStatusError status body => Some (raise (ApiHttpError status body))
              | _ => None
              end).

(** The branch of [stream_message] taken for [events[event]], the value
    under the key [message].  [recurse] is the recursive call
    [self.stream_message(session_id, _, ctx)], drained in place; [ctx] tells
    whether a context is attached.  The result is [false] when the
    generator executes [return]. *)
Definition handle_message (recurse : string -> M unit) (ctx : bool) (msg : json)
  : M bool :=
  ty <- dict_get msg "type" ;;
  if is_str "TextChunk" ty then
    text <- getitem msg "message" ;;
    emit (Yield text) ;;; ret true
  else if is_str "Inform" ty then
    result <- getitem msg "result" ;;
    emit (Yield (JStr (nl ++ nl ++ dumps result))) ;;; ret true
  else if is_str "ProgressIndicator" ty then
    if ctx then
      text <- getitem msg "message" ;;
      emit (Notify (JStr ("ProgressIndicator = " ++ py_str text))) ;;; ret true
    else ret true
  else if is_str "Inquire" ty then
    question <- getitem msg "message" ;;
    if ctx then
      elicitation <- ctx_elicit question ;;
      if String.eqb (action elicitation) "accept" then
        emit (Yield (JStr (nl ++ nl ++ data elicitation ++ nl ++ nl))) ;;;
        recurse (data elicitation) ;;;
        ret true
      else if String.eqb (action elicitation) "decline" then ret false
      else ret false
    else ret true
  else ret true.

(** [for event in events: if event == "message": ...] over the keys of a
    dict. *)
Fixpoint for_keys (recurse : string -> M unit) (ctx : bool) (events : json)
  (keys : list string) : M bool :=
  match keys with
  | [] => ret true
  | k :: rest =>
      if String.eqb k "message" then
        msg <- getitem events "message" ;;
        continue <- handle_message recurse ctx msg ;;
        if continue then for_keys recurse ctx events rest else ret false
      else for_keys recurse ctx events rest
  end.

(** The same loop over the items of a list: an item equal to [message]
    indexes the list with a string. *)
Fixpoint for_items (recurse : string -> M unit) (ctx : bool) (events : json)
  (items : list json) : M bool :=
  match items with
  | [] => ret true
  | x :: rest =>
      if is_str "message" x then
        msg <- getitem events "message" ;;
        continue <- handle_message recurse ctx msg ;;
        if continue then for_items recurse ctx events rest else ret false
      else for_items recurse ctx events rest
  end.

(** [for event in events]: a dict gives its keys, a list its items, a string
    its characters (none of which equals [message]); other values are not
    iterable. *)
Definition for_events (recurse : string -> M unit) (ctx : bool) (events : json)
  : M bool :=
  match events with
  | JObj fields => for_keys recurse ctx events (map fst fields)
  | JArr items => for_items recurse ctx events items
  | JStr _ => ret true
  | _ => raise TypeError
  end.

(** The [try] statement run for a line that starts with [data:]. *)
Definition process_data_line (recurse : string -> M unit) (ctx : bool)
  (line : string) : M bool :=
  try_except
    (events <- loads_m (sse_payload line) ;;
     for_events recurse ctx events)
    (fun e => match e with
              | JSONDecodeError => Some (emit WarnNotJson ;;; ret true)
              | _ => None
              end).

(** [async for line in response.aiter_lines()] *)
Fixpoint process_lines (recurse : string -> M unit) (ctx : bool)
  (lines : list string) : M unit :=
  match lines with
  | [] => ret tt
  | line :: rest =>
      if startswith "data:" line then
        continue <- process_data_line recurse ctx line ;;
        if continue then process_lines recurse ctx rest else ret tt
      else process_lines recurse ctx rest
  end.

(** [AgentforceClient.stream_message], with a budget of nested calls:
    [RecursionError] when it is used up. *)
Fixpoint stream_message_fuel (fuel : nat) (session_id message : string)
  (ctx : bool) : M unit :=
  match fuel with
  | O => raise RecursionError
  | S fuel' =>
      tok <- get_valid_token ;;
      r <- client_stream session_id message tok ;;
      match r with
      | NoStream => raise TransportError
      | Stream status body lines =>
          raise_for_status status body ;;;
          process_lines
            (fun answer => stream_message_fuel fuel' session_id answer ctx)
            ctx lines
      end
  end.

(** Every nested call opens one stream, and a stream opens only while the
    script has a reply left, so one more than the replies left is budget
    enough. *)
Definition stream_message (session_id message : string) (ctx : bool) : M unit :=
  fun w => stream_message_fuel (S (length (stream_endpoint w))) session_id message ctx w.

(** One call of [stream_message], its nested calls being [recurse]. *)
Definition stream_body (recurse : string -> M unit) (session_id message : string)
  (ctx : bool) : M unit :=
  tok <- get_valid_token ;;
  r <- client_stream session_id message tok ;;
  match r with
  | NoStream => raise TransportError
  | Stream status body lines =>
      raise_for_status status body ;;; process_lines recurse ctx lines
  end.

(** The loop over [lines], telling whether it ran to the end ([true]) or
    the generator returned inside it ([false]). *)
Fixpoint run_lines (recurse : string -> M unit) (ctx : bool) (lines : list string)
  : M bool :=
  match lines with
  | [] => ret true
  | line :: rest =>
      if startswith "data:" line then
        continue <- process_data_line recurse ctx line ;;
        if continue then run_lines recurse ctx rest else ret false
      else run_lines recurse ctx rest
  end.

(** [line] is a [data:] line whose payload is a dict with the value [msg]
    under the key [message]. *)
Definition carries (line : string) (msg : json) : Prop :=
  startswith "data:" line = true /\
  exists fields,
    loads (sse_payload line) = Some (JObj fields) /\
    NoDup (map fst fields) /\
    obj_lookup "message" fields = Some msg.



(** [AGENT_ID], read from the environment, and the texts of the library
    exceptions. *)
Variable AGENT_ID : option string.
Variable lib_text : exn -> string.

(** [AgentforceClient.start_session]: the payload and the headers travel in
    the keyword arguments, which the world does not look at. *)
Definition start_session (uuid : string) : M json :=
  response <- _authenticated_request "POST"
                ("/einstein/ai-agent/v1/agents/" ++ env_str AGENT_ID ++ "/sessions") ;;
  body <- loads_m (snd response) ;;
  dict_get body "sessionId".

(** [AgentforceClient.end_session] *)
Definition end_session (session_id : json) : M unit :=
  _authenticated_request "DELETE"
    ("/einstein/ai-agent/v1/sessions/" ++ py_str session_id) ;;;
  ret tt.

(** *** main.py *)

(** The part of the [try] of [ask_agentforce_stream] that follows the
    assignment of [session_id]. *)
Definition stream_query (session_id : json) (user_query : string) : M unit :=
  ctx_info ("Agentforce Session ID received: " ++ py_str session_id
            ++ ". Streaming query...") ;;;
  stream_message (py_str session_id) user_query true ;;;
  ctx_info "Agentforce stream completed.".

Definition error_detail (e : exn) : string :=
  "An error occurred during Agentforce operation: " ++ exn_text lib_text e.

(** The fragment of the [except] clause. *)
Definition error_fragment (e : exn) : json :=
  JStr (nl ++ "[ERROR: " ++ error_detail e ++ "]").

(** [except Exception as e:] *)
Definition except_clause (e : exn) : M unit :=
  ctx_info (error_detail e) ;;;
  emit (Yield (error_fragment e)).

(** [finally:] *)
Definition finally_clause (session_id : json) : M unit :=
  if truthy session_id then
    try_except
      (end_session session_id ;;;
       ctx_info ("Agentforce Session " ++ py_str session_id ++ " ended successfully."))
      (fun e => Some (ctx_info ("Failed to gracefully end Agentforce session "
                                ++ py_str session_id ++ ": " ++ exn_text lib_text e)))
  else ret tt.

(** [ask_agentforce_stream]; [user_key] is [str(uuid.uuid4())].  When
    [start_session] raises, [session_id] is still [None] in the [finally]
    clause. *)
Definition ask_agentforce_stream (user_query user_key : string) : M unit :=
  ctx_info ("Starting Agentforce session with external key: " ++ user_key) ;;;
  fun w =>
    match start_session user_key w with
    | (Raise e, w') => (except_clause e ;;; finally_clause JNull) w'
    | (Ok session_id, w') =>
        (try_except (stream_query session_id user_query)
           (fun e => Some (except_clause e)) ;;;
         finally_clause session_id) w'
    end.

(** ** What a step leaves alone *)

Section Preserves.
Context {X : Type} (proj : World -> X).

Lemma preserves_ret {A} (a : A) : preserves proj (ret a).
Proof. intro w; reflexivity. Qed.

Lemma preserves_raise {A} (e : exn) : preserves proj (@raise A e).
Proof. intro w; reflexivity. Qed.

Lemma preserves_bind {A B} (m : M A) (f : A -> M B) :
  preserves proj m -> (forall a, preserves proj (f a)) -> preserves proj (bind m f).
Proof.
  intros Hm Hf w. unfold bind. specialize (Hm w).
  destruct (m w) as [[a | e] w']; simpl in *.
  - rewrite Hf. exact Hm.
  - exact Hm.
Qed.

Lemma preserves_try {A} (m : M A) (handler : exn -> option (M A)) :
  preserves proj m -> (forall e h, handler e = Some h -> preserves proj h) ->
  preserves proj (try_except m handler).
Proof.
  intros Hm Hh w. unfold try_except. specialize (Hm w).
  destruct (m w) as [[a | e] w']; simpl in *; [exact Hm|].
  destruct (handler e) as [h|] eqn:E; simpl; [|exact Hm].
  rewrite (Hh e h E). exact Hm.
Qed.

Lemma preserves_get_token : preserves proj get_access_token.
Proof. intro w; reflexivity. Qed.

Lemma preserves_get_expiry : preserves proj get_expires_at.
Proof. intro w; reflexivity. Qed.

Lemma preserves_getitem v k : preserves proj (getitem v k).
Proof.
  destruct v; simpl; try apply preserves_raise.
  destruct (obj_lookup k fields); [apply preserves_ret | apply preserves_raise].
Qed.

Lemma preserves_dict_get v k : preserves proj (dict_get v k).
Proof.
  destruct v; simpl; try apply preserves_raise.
  destruct (obj_lookup k fields); apply preserves_ret.
Qed.

Lemma preserves_loads s : preserves proj (loads_m s).
Proof.
  unfold loads_m. destruct (loads s); [apply preserves_ret | apply preserves_raise].
Qed.

Lemma preserves_raise_for_status st b : preserves proj (raise_for_status st b).
Proof.
  unfold raise_for_status.
  destruct (is_success st); [apply preserves_ret | apply preserves_raise].
Qed.

Lemma preserves_get_expires_in v : preserves proj (get_expires_in v).
Proof.
  destruct v; simpl; try apply preserves_raise.
  destruct (obj_lookup _ fields); apply preserves_ret.
Qed.

Hypothesis blind : auth_blind proj.

Lemma preserves_now_plus v : preserves proj (now_plus v).
Proof.
  unfold now_plus. apply preserves_bind; [apply blind|].
  intro now. destruct v; try apply preserves_raise; try apply preserves_ret.
  destruct (fits_float n); [apply preserves_ret | apply preserves_raise].
Qed.

Lemma preserves_fetch : preserves proj _fetch_new_token.
Proof.
  destruct blind as (Hp & Ht & Hs & He).
  unfold _fetch_new_token, fetch_body. apply preserves_try.
  - apply preserves_bind; [exact Hp|]. intros [|st b]; [apply preserves_raise|].
    apply preserves_bind; [apply preserves_raise_for_status|]. intros _.
    apply preserves_bind; [apply preserves_loads|]. intro td.
    apply preserves_bind; [apply preserves_getitem|]. intro tok.
    apply preserves_bind; [apply Hs|]. intros _.
    apply preserves_bind; [apply preserves_get_expires_in|]. intro ei.
    apply preserves_bind; [apply preserves_now_plus|]. intro t. apply He.
  - intros e h He'. destruct e; inversion He'; apply preserves_raise.
Qed.

Lemma preserves_get_valid_token : preserves proj get_valid_token.
Proof.
  unfold get_valid_token, token_is_fresh.
  apply preserves_bind.
  - apply preserves_bind; [apply preserves_get_token|]. intro tok.
    destruct (truthy tok); [|apply preserves_ret].
    apply preserves_bind; [apply preserves_get_expiry|]. intro exp.
    apply preserves_bind; [apply blind|]. intro now. apply preserves_ret.
  - intros [|]; [apply preserves_get_token|].
    apply preserves_bind; [apply preserves_fetch | intro; apply preserves_get_token].
Qed.

End Preserves.

Ltac blind := repeat split; intros; intro; reflexivity.

Lemma blind_streams : auth_blind stream_endpoint.
Proof. blind. Qed.

Lemma keeps_get_valid_token : keeps get_valid_token.
Proof. apply preserves_get_valid_token, blind_streams. Qed.

Lemma fetch_raises_auth w e w' :
  _fetch_new_token w = (Raise e, w') -> is_auth_error e = true.
Proof.
  unfold _fetch_new_token, try_except.
  destruct (fetch_body w) as [[[] | e0] w0]; [discriminate|].
  destruct e0; intro H; injection H as <- _; reflexivity.
Qed.

Lemma get_valid_token_raises_auth w e w' :
  get_valid_token w = (Raise e, w') -> is_auth_error e = true.
Proof.
  unfold get_valid_token, token_is_fresh, bind, get_access_token.
  destruct (truthy (access_token w)); simpl.
  - destruct (clock w (clock_reads w) + 60 <? expires_at w); simpl; [discriminate|].
    match goal with |- context [_fetch_new_token ?w0] =>
      pose proof (fetch_raises_auth w0) as H;
      destruct (_fetch_new_token w0) as [[[] | e0] w1] end; [discriminate|].
    intro E; injection E as <- _. eapply H; reflexivity.
  - pose proof (fetch_raises_auth w) as H.
    destruct (_fetch_new_token w) as [[[] | e0] w1]; [discriminate|].
    intro E; injection E as <- _. eapply H; reflexivity.
Qed.

Lemma tame_ret {A} (a : A) : tame (ret a).
Proof. split; intro w; simpl; [reflexivity | discriminate]. Qed.

Lemma tame_raise {A} (e : exn) : e <> RecursionError -> tame (@raise A e).
Proof.
  intro He. split; intro w; simpl; [reflexivity|].
  intro E. apply He. injection E as ->. reflexivity.
Qed.

Lemma tame_bind {A B} (m : M A) (f : A -> M B) :
  tame m -> (forall a, tame (f a)) -> tame (bind m f).
Proof.
  intros [Hk Hq] Hf. split.
  - apply preserves_bind; [exact Hk | intro a; apply Hf].
  - intro w. unfold bind. specialize (Hq w).
    destruct (m w) as [[a | e] w']; simpl in *.
    + apply Hf.
    + intro E. apply Hq. injection E as ->. reflexivity.
Qed.

Lemma tame_emit e : tame (emit e).
Proof. split; intro w; simpl; [reflexivity | discriminate]. Qed.

Lemma tame_elicit qn : tame (ctx_elicit qn).
Proof. split; intro w; simpl; [reflexivity | discriminate]. Qed.

Lemma tame_getitem v k : tame (getitem v k).
Proof.
  destruct v; simpl; try (apply tame_raise; discriminate).
  destruct (obj_lookup k fields); [apply tame_ret | apply tame_raise; discriminate].
Qed.

Lemma tame_dict_get v k : tame (dict_get v k).
Proof.
  destruct v; simpl; try (apply tame_raise; discriminate).
  destruct (obj_lookup k fields); apply tame_ret.
Qed.

Lemma tame_loads s : tame (loads_m s).
Proof.
  unfold loads_m. destruct (loads s); [apply tame_ret | apply tame_raise; discriminate].
Qed.

Lemma tame_raise_for_status st b : tame (raise_for_status st b).
Proof.
  unfold raise_for_status.
  destruct (is_success st); [apply tame_ret | apply tame_raise; discriminate].
Qed.

Create HintDb tame_db.
#[local] Hint Resolve tame_ret tame_raise tame_emit tame_elicit tame_getitem
  tame_dict_get tame_loads tame_raise_for_status : tame_db.
#[local] Hint Extern 1 (_ <> RecursionError) => discriminate : tame_db.

Ltac tame_steps :=
  repeat (first [ apply tame_bind; [|intro] | solve [auto with tame_db] ]).

Lemma sim_tame {A} k (m : M A) : tame m -> sim k m m.
Proof.
  intros [Hm Hq] w _. split; [reflexivity|]. split; [|apply Hq].
  unfold streams_left. rewrite Hm. lia.
Qed.

Lemma sim_bind {A B} k (m1 m2 : M A) (f1 f2 : A -> M B) :
  sim k m1 m2 -> (forall a, sim k (f1 a) (f2 a)) ->
  sim k (bind m1 f1) (bind m2 f2).
Proof.
  intros Hm Hf w Hw. unfold bind.
  destruct (Hm w Hw) as (E & L & Q). rewrite <- E.
  destruct (m1 w) as [[a | e] w']; simpl in *.
  - destruct (Hf a w' ltac:(lia)) as (E' & L' & Q').
    split; [exact E'|]. split; [lia | exact Q'].
  - split; [reflexivity|]. split; [exact L|].
    intro X. apply Q. injection X as ->. reflexivity.
Qed.

Lemma sim_try {A} k (m1 m2 : M A) (handler : exn -> option (M A)) :
  sim k m1 m2 -> (forall e h, handler e = Some h -> tame h) ->
  sim k (try_except m1 handler) (try_except m2 handler).
Proof.
  intros Hm Hh w Hw. unfold try_except.
  destruct (Hm w Hw) as (E & L & Q). rewrite <- E.
  destruct (m1 w) as [[a | e] w']; simpl in *;
    [split; [reflexivity|]; split; [exact L | discriminate]|].
  destruct (handler e) as [h|] eqn:He; simpl;
    [|split; [reflexivity|]; split; [exact L | exact Q]].
  destruct (Hh e h He) as [Hk Hq].
  split; [reflexivity|]. split; [|apply Hq].
  unfold streams_left in *. rewrite (Hk w'). exact L.
Qed.

Lemma sim_handle_message k (r1 r2 : string -> M unit) ctx msg :
  (forall a, sim k (r1 a) (r2 a)) ->
  sim k (handle_message r1 ctx msg) (handle_message r2 ctx msg).
Proof.
  intro Hr. unfold handle_message.
  apply sim_bind; [apply sim_tame; tame_steps|]. intro ty.
  destruct (is_str "TextChunk" ty); [apply sim_tame; tame_steps|].
  destruct (is_str "Inform" ty); [apply sim_tame; tame_steps|].
  destruct (is_str "ProgressIndicator" ty);
    [apply sim_tame; destruct ctx; tame_steps|].
  destruct (is_str "Inquire" ty); [|apply sim_tame; tame_steps].
  apply sim_bind; [apply sim_tame; tame_steps|]. intro qn.
  destruct ctx; [|apply sim_tame; tame_steps].
  apply sim_bind; [apply sim_tame; tame_steps|]. intro el.
  destruct (String.eqb (action el) "accept").
  - apply sim_bind; [apply sim_tame; tame_steps|]. intros _.
    apply sim_bind; [apply Hr|]. intros _. apply sim_tame; tame_steps.
  - destruct (String.eqb (action el) "decline"); apply sim_tame; tame_steps.
Qed.

Lemma sim_for_keys k (r1 r2 : string -> M unit) ctx events keys :
  (forall a, sim k (r1 a) (r2 a)) ->
  sim k (for_keys r1 ctx events keys) (for_keys r2 ctx events keys).
Proof.
  intro Hr. induction keys as [|key rest IH]; simpl; [apply sim_tame; tame_steps|].
  destruct (String.eqb key "message"); [|exact IH].
  apply sim_bind; [apply sim_tame; tame_steps|]. intro msg.
  apply sim_bind; [apply sim_handle_message, Hr|].
  intros [|]; [exact IH | apply sim_tame; tame_steps].
Qed.

Lemma sim_for_items k (r1 r2 : string -> M unit) ctx events items :
  (forall a, sim k (r1 a) (r2 a)) ->
  sim k (for_items r1 ctx events items) (for_items r2 ctx events items).
Proof.
  intro Hr. induction items as [|x rest IH]; simpl; [apply sim_tame; tame_steps|].
  destruct (is_str "message" x); [|exact IH].
  apply sim_bind; [apply sim_tame; tame_steps|]. intro msg.
  apply sim_bind; [apply sim_handle_message, Hr|].
  intros [|]; [exact IH | apply sim_tame; tame_steps].
Qed.

Lemma sim_for_events k (r1 r2 : string -> M unit) ctx events :
  (forall a, sim k (r1 a) (r2 a)) ->
  sim k (for_events r1 ctx events) (for_events r2 ctx events).
Proof.
  intro Hr. destruct events; simpl.
  - apply sim_tame; tame_steps.
  - apply sim_tame; tame_steps.
  - apply sim_tame; tame_steps.
  - apply sim_tame; tame_steps.
  - apply sim_for_items, Hr.
  - apply sim_for_keys, Hr.
Qed.

Lemma sim_process_lines k (r1 r2 : string -> M unit) ctx lines :
  (forall a, sim k (r1 a) (r2 a)) ->
  sim k (process_lines r1 ctx lines) (process_lines r2 ctx lines).
Proof.
  intro Hr. induction lines as [|line rest IH]; simpl; [apply sim_tame; tame_steps|].
  destruct (startswith "data:" line); [|exact IH].
  apply sim_bind.
  - unfold process_data_line. apply sim_try.
    + apply sim_bind; [apply sim_tame; tame_steps|]. intro events.
      apply sim_for_events, Hr.
    + intros e h He. destruct e; inversion He. tame_steps.
  - intros [|]; [exact IH | apply sim_tame; tame_steps].
Qed.

Lemma stream_message_fuel_S fuel session message ctx :
  stream_message_fuel (S fuel) session message ctx
  = stream_body (fun a => stream_message_fuel fuel session a ctx) session message ctx.
Proof. reflexivity. Qed.

Lemma tame_get_valid_token : tame get_valid_token.
Proof.
  split; [apply keeps_get_valid_token|]. intro w.
  pose proof (get_valid_token_raises_auth w) as H.
  destruct (get_valid_token w) as [[tok | e] w1]; simpl; [discriminate|].
  intro E. injection E as ->. discriminate (H _ _ eq_refl).
Qed.

Lemma sim_stream_body k (r1 r2 : string -> M unit) session message ctx :
  (forall k', k = S k' -> forall a, sim k' (r1 a) (r2 a)) ->
  sim k (stream_body r1 session message ctx) (stream_body r2 session message ctx).
Proof.
  intros Hr w Hw. unfold stream_body, bind.
  destruct tame_get_valid_token as [Hkeep Hquiet].
  pose proof (Hkeep w) as Hk. pose proof (Hquiet w) as Hq.
  destruct (get_valid_token w) as [[tok | e] w1]; simpl in Hk, Hq.
  2:{ split; [reflexivity|]. split; [unfold streams_left; simpl; rewrite Hk; lia|].
      simpl. intro X. apply Hq. injection X as ->. reflexivity. }
  unfold client_stream; cbv beta zeta.
  destruct (stream_endpoint w1) as [|r rest] eqn:Hs; cbn [hd tl].
  { simpl. split; [reflexivity|]. split; [unfold streams_left; simpl; lia | discriminate]. }
  assert (Hlen : streams_left w = S (length rest)).
  { unfold streams_left. rewrite <- Hk. reflexivity. }
  destruct r as [|status body lines].
  { simpl. split; [reflexivity|]. split; [unfold streams_left in *; simpl; lia | discriminate]. }
  destruct k as [|k']; [lia|].
  cbv beta iota.
  match goal with
  | |- context [raise_for_status status body ?w0] => set (w2 := w0)
  end.
  assert (Hw2 : (streams_left w2 <= k')%nat).
  { unfold streams_left, w2 in *. simpl. lia. }
  destruct (sim_bind k'
    (raise_for_status status body) (raise_for_status status body)
    (fun _ => process_lines r1 ctx lines) (fun _ => process_lines r2 ctx lines)
    (sim_tame _ _ (tame_raise_for_status status body))
    (fun _ => sim_process_lines _ _ _ ctx lines (Hr k' eq_refl)) w2 Hw2) as (E & L & Q).
  unfold bind in E, L, Q. split; [exact E|]. split; [|exact Q].
  assert (streams_left w2 = length rest) by reflexivity. lia.
Qed.

(** Above the number of replies left, the budget does not matter. *)
Lemma fuel_irrelevant session ctx : forall fuel1 fuel2 message,
  sim (Nat.min fuel1 fuel2)
    (stream_message_fuel (S fuel1) session message ctx)
    (stream_message_fuel (S fuel2) session message ctx).
Proof.
  induction fuel1 as [|f1 IH]; intros fuel2 message;
    rewrite !stream_message_fuel_S; apply sim_stream_body; intros k' Hk a.
  - discriminate.
  - destruct fuel2 as [|f2]; [simpl in Hk; discriminate|].
    simpl in Hk. injection Hk as <-. apply IH.
Qed.

(** ** Observations of a trace *)

Lemma fragments_app t1 t2 : fragments (t1 ++ t2) = (fragments t1 ++ fragments t2)%list.
Proof.
  induction t1 as [|e t1 IH]; simpl; [reflexivity|].
  destruct e; simpl; rewrite IH; reflexivity.
Qed.

Lemma token_posts_app t1 t2 : token_posts (t1 ++ t2) = (token_posts t1 + token_posts t2)%nat.
Proof.
  induction t1 as [|e t1 IH]; simpl; [reflexivity|].
  destruct e; simpl; rewrite IH; reflexivity.
Qed.

Lemma api_requests_app t1 t2 :
  api_requests (t1 ++ t2) = (api_requests t1 + api_requests t2)%nat.
Proof.
  induction t1 as [|e t1 IH]; simpl; [reflexivity|].
  destruct e; simpl; rewrite IH; reflexivity.
Qed.

(** *** The token endpoint is called once by every refresh *)

Lemma fits_3600 : fits_float 3600 = true.
Proof. vm_compute. reflexivity. Qed.

Lemma fetch_posts_once w :
  token_posts (trace (snd (_fetch_new_token w))) = S (token_posts (trace w))
  /\ token_endpoint (snd (_fetch_new_token w)) = tl (token_endpoint w).
Proof.
  unfold _fetch_new_token, fetch_body, now_plus, time_time, try_except, bind, post_token.
  cbv beta zeta.
  destruct (hd NoReply (token_endpoint w)) as [|status body]; simpl.
  { rewrite token_posts_app. simpl. split; [lia | reflexivity]. }
  unfold raise_for_status. destruct (is_success status); simpl.
  2:{ rewrite token_posts_app. simpl. split; [lia | reflexivity]. }
  unfold loads_m. destruct (loads body) as [td|]; simpl.
  2:{ rewrite token_posts_app. simpl. split; [lia | reflexivity]. }
  destruct td; simpl; try (rewrite token_posts_app; simpl; split; [lia | reflexivity]).
  destruct (obj_lookup "access_token" fields) as [tok|]; simpl.
  2:{ rewrite token_posts_app. simpl. split; [lia | reflexivity]. }
  destruct (obj_lookup "expires_in" fields) as [ei|]; simpl.
  - destruct ei; simpl; try destruct (fits_float n); simpl;
      rewrite token_posts_app; simpl; split; (lia || reflexivity).
  - rewrite ?fits_3600. simpl. rewrite token_posts_app. simpl. split; [lia | reflexivity].
Qed.

(** A refresh that returns has stored the [access_token] of a 2xx reply. *)
Lemma fetch_ok_inv w w' :
  _fetch_new_token w = (Ok tt, w') ->
  exists status body fields tok,
    hd NoReply (token_endpoint w) = Reply status body /\
    is_success status = true /\
    loads body = Some (JObj fields) /\
    obj_lookup "access_token" fields = Some tok /\
    access_token w' = tok.
Proof.
  unfold _fetch_new_token, fetch_body, now_plus, time_time, try_except, bind, post_token.
  cbv beta zeta.
  destruct (hd NoReply (token_endpoint w)) as [|status body] eqn:Hh; simpl; [discriminate|].
  unfold raise_for_status. destruct (is_success status) eqn:Hs; simpl; [|discriminate].
  unfold loads_m. destruct (loads body) as [td|] eqn:Hl; simpl; [|discriminate].
  destruct td; simpl; try discriminate.
  destruct (obj_lookup "access_token" fields) as [tok|] eqn:Ht; simpl; [|discriminate].
  intro H. exists status, body, fields, tok.
  split; [reflexivity|]. split; [exact Hs|]. split; [exact Hl|].
  split; [exact Ht|].
  destruct (obj_lookup "expires_in" fields) as [ei|]; simpl in H.
  - destruct ei; simpl in H; try destruct (fits_float n); simpl in H;
      try discriminate; injection H as <-; reflexivity.
  - rewrite ?fits_3600 in H. simpl in H. injection H as <-; reflexivity.
Qed.

(** ** AuthManager *)

Lemma get_valid_token_fresh w :
  truthy (access_token w) = true ->
  clock w (clock_reads w) + 60 < expires_at w ->
  get_valid_token w = (Ok (access_token w), ticked w).
Proof.
  intros Ht Hf. unfold get_valid_token, token_is_fresh, bind, get_access_token.
  rewrite Ht. unfold get_expires_at, time_time, ret, ticked. simpl.
  apply Z.ltb_lt in Hf. rewrite Hf. reflexivity.
Qed.

Lemma get_valid_token_stale w :
  truthy (access_token w) = false \/ expires_at w <= clock w (clock_reads w) + 60 ->
  exists w0, (w0 = w \/ w0 = ticked w) /\
    get_valid_token w = (_fetch_new_token ;;; get_access_token) w0.
Proof.
  intros H. unfold get_valid_token, token_is_fresh. unfold bind at 1 2. unfold bind at 2.
  unfold get_access_token at 1.
  destruct (truthy (access_token w)) eqn:Ht.
  - destruct H as [H | H]; [discriminate|].
    exists (ticked w). split; [right; reflexivity|].
    unfold bind at 1 2. unfold get_expires_at, time_time, ret, ticked. simpl.
    apply Z.ltb_ge in H. unfold time_time. simpl. rewrite H. reflexivity.
  - exists w. split; [left; reflexivity|]. reflexivity.
Qed.

(** C3: while a cached token is present (truthy) and the clock reads
    strictly less than [expires_at - 60], [get_valid_token] returns the cached
    token itself, calls no endpoint and leaves the cache alone; in every other
    state it calls the token endpoint exactly once, and a token it returns is
    the [access_token] of that reply, now cached. *)
Theorem get_valid_token_cache_or_refresh (w : World) :
  (truthy (access_token w) = true ->
   clock w (clock_reads w) + 60 < expires_at w ->
   fst (get_valid_token w) = Ok (access_token w) /\
   trace (snd (get_valid_token w)) = trace w /\
   token_endpoint (snd (get_valid_token w)) = token_endpoint w /\
   access_token (snd (get_valid_token w)) = access_token w /\
   expires_at (snd (get_valid_token w)) = expires_at w)
  /\
  (truthy (access_token w) = false \/ expires_at w <= clock w (clock_reads w) + 60 ->
   token_posts (trace (snd (get_valid_token w))) = S (token_posts (trace w)) /\
   token_endpoint (snd (get_valid_token w)) = tl (token_endpoint w) /\
   forall v, fst (get_valid_token w) = Ok v ->
     access_token (snd (get_valid_token w)) = v /\
     exists status body fields,
       hd NoReply (token_endpoint w) = Reply status body /\
       is_success status = true /\
       loads body = Some (JObj fields) /\
       obj_lookup "access_token" fields = Some v).
Proof.
  split.
  - intros Ht Hf. rewrite (get_valid_token_fresh w Ht Hf). simpl. auto.
  - intros H. destruct (get_valid_token_stale w H) as (w0 & Hw0 & E). rewrite E.
    assert (Htr : trace w0 = trace w /\ token_endpoint w0 = token_endpoint w).
    { destruct Hw0 as [-> | ->]; split; reflexivity. }
    destruct Htr as [Htr Hte].
    destruct (fetch_posts_once w0) as [Hp He].
    pose proof (fetch_ok_inv w0) as Hinv.
    unfold bind. destruct (_fetch_new_token w0) as [[[] | e] w1]; simpl in *.
    + rewrite Hp, He, Htr, Hte. split; [reflexivity|]. split; [reflexivity|].
      intros v Hv. injection Hv as <-. split; [reflexivity|].
      destruct (Hinv w1 eq_refl) as (st & b & fs & tok & H1 & H2 & H3 & H4 & H5).
      exists st, b, fs. rewrite <- Hte, H5. auto.
    + rewrite Hp, He, Htr, Hte. split; [reflexivity|]. split; [reflexivity|].
      intros v Hv. discriminate.
Qed.

Lemma fetch_ok_iff w w' :
  _fetch_new_token w = (Ok tt, w') <->
  exists status body fields tok secs,
    hd NoReply (token_endpoint w) = Reply status body /\
    is_success status = true /\
    loads body = Some (JObj fields) /\
    obj_lookup "access_token" fields = Some tok /\
    expires_seconds fields = Some secs /\
    w' = refreshed w tok secs.
Proof.
  unfold _fetch_new_token, fetch_body, now_plus, time_time, try_except, bind, post_token, expires_seconds.
  cbv beta zeta. split.
  - destruct (hd NoReply (token_endpoint w)) as [|status body] eqn:Hh; simpl; [discriminate|].
    unfold raise_for_status. destruct (is_success status) eqn:Hs; simpl; [|discriminate].
    unfold loads_m. destruct (loads body) as [td|] eqn:Hl; simpl; [|discriminate].
    destruct td; simpl; try discriminate.
    destruct (obj_lookup "access_token" fields) as [tok|] eqn:Ht; simpl; [|discriminate].
    intro H.
    destruct (obj_lookup "expires_in" fields) as [ei|] eqn:He; simpl in H.
    + destruct ei; simpl in H; try discriminate.
      * injection H as <-. exists status, body, fields, tok, (if b then 1 else 0).
        rewrite He. repeat (split; [assumption || reflexivity|]); reflexivity.
      * destruct (fits_float n) eqn:Hn; simpl in H; [|discriminate].
        injection H as <-. exists status, body, fields, tok, n.
        rewrite He, Hn. repeat (split; [assumption || reflexivity|]); reflexivity.
    + rewrite ?fits_3600 in H. simpl in H.
      injection H as <-. exists status, body, fields, tok, 3600.
      rewrite He. repeat (split; [assumption || reflexivity|]); reflexivity.
  - intros (status & body & fields & tok & secs & Hh & Hs & Hl & Ht & He & ->).
    rewrite Hh. simpl. unfold raise_for_status. rewrite Hs. simpl.
    unfold loads_m. rewrite Hl. simpl. rewrite Ht. simpl.
    destruct (obj_lookup "expires_in" fields) as [ei|]; simpl.
    + destruct ei; try discriminate.
      * injection He as <-; reflexivity.
      * destruct (fits_float n); [|discriminate]. injection He as <-; reflexivity.
    + rewrite ?fits_3600. injection He as <-; reflexivity.
Qed.

(** C8: a token fetch that succeeds has replaced the cached token by the
    [access_token] of the reply and set the cached expiry to the clock
    reading plus the reply's [expires_in], 3600 when the reply has none. *)
Theorem fetch_new_token_success (w w' : World) :
  _fetch_new_token w = (Ok tt, w') ->
  exists status body fields tok secs,
    hd NoReply (token_endpoint w) = Reply status body /\
    is_success status = true /\
    loads body = Some (JObj fields) /\
    obj_lookup "access_token" fields = Some tok /\
    access_token w' = tok /\
    expires_at w' = clock w (clock_reads w) + secs /\
    (obj_lookup "expires_in" fields = None -> secs = 3600) /\
    (forall n, obj_lookup "expires_in" fields = Some (JNum n) -> secs = n).
Proof.
  intro H. apply fetch_ok_iff in H.
  destruct H as (status & body & fields & tok & secs & Hh & Hs & Hl & Ht & He & ->).
  exists status, body, fields, tok, secs.
  repeat (split; [assumption || reflexivity|]).
  unfold expires_seconds in He. split.
  - intro Hn. rewrite Hn in He. injection He as <-. reflexivity.
  - intros n Hn. rewrite Hn in He. destruct (fits_float n); [|discriminate].
    injection He as <-. reflexivity.
Qed.

(** ** AgentforceClient._authenticated_request *)

Lemma blind_api : auth_blind api_endpoint.
Proof. blind. Qed.

Lemma blind_api_requests : auth_blind (fun w => api_requests (trace w)).
Proof.
  repeat split; intros; intro w; simpl; try reflexivity.
  rewrite api_requests_app. simpl. lia.
Qed.

Lemma do_request_count method url tok w :
  api_requests (trace (snd (do_request method url tok w)))
  = S (api_requests (trace w)).
Proof.
  unfold do_request, bind, client_request.
  destruct (hd NoReply (api_endpoint w)); simpl; rewrite api_requests_app; simpl; lia.
Qed.

Lemma hd_nth {A} (l : list A) d : hd d l = nth 0 l d.
Proof. destruct l; reflexivity. Qed.

Lemma hd_tl_nth {A} (l : list A) d : hd d (tl l) = nth 1 l d.
Proof. destruct l as [|x [|y l]]; reflexivity. Qed.

Lemma sends_none {A} (m : M A) :
  preserves (fun w => api_requests (trace w)) m -> sends_at_most 0 m.
Proof. intros H w. rewrite (H w). lia. Qed.

Lemma sends_bind {A B} n1 n2 (m : M A) (f : A -> M B) :
  sends_at_most n1 m -> (forall a, sends_at_most n2 (f a)) ->
  sends_at_most (n1 + n2) (bind m f).
Proof.
  intros Hm Hf w. unfold bind. specialize (Hm w).
  destruct (m w) as [[a | e] w']; simpl in *.
  - specialize (Hf a w'). lia.
  - lia.
Qed.

Lemma sends_mono {A} n n' (m : M A) :
  (n <= n')%nat -> sends_at_most n m -> sends_at_most n' m.
Proof. intros Hn H w. specialize (H w). lia. Qed.

Lemma sends_do_request method url tok : sends_at_most 1 (do_request method url tok).
Proof. intro w. rewrite do_request_count. lia. Qed.

Lemma try_raise_world {A} (m : M A) (handler : exn -> option (M A)) w :
  (forall e h, handler e = Some h -> exists e', h = raise e') ->
  snd (try_except m handler w) = snd (m w).
Proof.
  intro Hh. unfold try_except. destruct (m w) as [[a | e] w']; simpl; [reflexivity|].
  destruct (handler e) as [h|] eqn:E; [|reflexivity].
  destruct (Hh e h E) as [e' ->]. reflexivity.
Qed.

Lemma auth_request_at_most_two method url :
  sends_at_most 2 (_authenticated_request method url).
Proof.
  intro w. unfold _authenticated_request. rewrite try_raise_world.
  2:{ intros e h He. destruct e; inversion He. eexists; reflexivity. }
  revert w. change (sends_at_most (0 + (1 + (1 + 0))) (
     tok <- get_valid_token ;;
     response <- do_request method url tok ;;
     response' <-
       (if fst response =? 401 then
          _fetch_new_token ;;;
          tok' <- get_valid_token ;;
          do_request method url tok'
        else ret response) ;;
     raise_for_status (fst response') (snd response') ;;;
     ret response')).
  apply sends_bind.
  { apply sends_none, preserves_get_valid_token, blind_api_requests. }
  intro tok. apply sends_bind; [apply sends_do_request|]. intro response.
  apply sends_bind.
  - destruct (fst response =? 401).
    + change 1%nat with (0 + (0 + 1))%nat. apply sends_bind.
      { apply sends_none, preserves_fetch, blind_api_requests. }
      intros _. apply sends_bind.
      { apply sends_none, preserves_get_valid_token, blind_api_requests. }
      intro tok'. apply sends_do_request.
    + apply (sends_mono 0); [lia|]. apply sends_none, preserves_ret.
  - intro response'. change 0%nat with (0 + 0)%nat. apply sends_bind.
    + apply sends_none, preserves_raise_for_status.
    + intros _. apply sends_none, preserves_ret.
Qed.

Lemma bind_ok {A B} (m : M A) (f : A -> M B) w a w' :
  m w = (Ok a, w') -> bind m f w = f a w'.
Proof. intro H. unfold bind. rewrite H. reflexivity. Qed.

Lemma bind_raise {A B} (m : M A) (f : A -> M B) w e w' :
  m w = (Raise e, w') -> bind m f w = (Raise e, w').
Proof. intro H. unfold bind. rewrite H. reflexivity. Qed.

Lemma do_request_reply method url tok w status body :
  hd NoReply (api_endpoint w) = Reply status body ->
  do_request method url tok w = (Ok (status, body), snd (client_request method url tok w)).
Proof. intro H. unfold do_request, bind, client_request. cbv beta zeta. rewrite H. reflexivity. Qed.

Lemma do_request_noreply method url tok w :
  hd NoReply (api_endpoint w) = NoReply ->
  do_request method url tok w = (Raise TransportError, snd (client_request method url tok w)).
Proof. intro H. unfold do_request, bind, client_request. cbv beta zeta. rewrite H. reflexivity. Qed.

(** C2, as the code has it: a call sends at most two requests.  When the
    first reply is a 401, the token endpoint is called once by the forced
    refresh; when that refresh and the token lookup after it succeed, the
    request is sent exactly once more, and the second reply settles the
    call: returned when 2xx, the terminal [ApiHttpError] otherwise (a second
    401 included), with no third request.  When the forced refresh raises,
    or the token lookup after it does, the call ends in that error and the
    request is not sent again. *)
Theorem authenticated_request_retries_once (method url : string) (w : World) :
  (api_requests (trace (snd (_authenticated_request method url w)))
     <= api_requests (trace w) + 2)%nat
  /\
  (forall tok w1 b,
     get_valid_token w = (Ok tok, w1) ->
     api_reply 0 w = Reply 401 b ->
     let w2 := snd (client_request method url tok w1) in
     token_posts (trace (snd (_fetch_new_token w2))) = S (token_posts (trace w2)) /\
     (forall w3 tok' w4,
        _fetch_new_token w2 = (Ok tt, w3) ->
        get_valid_token w3 = (Ok tok', w4) ->
        let w5 := snd (client_request method url tok' w4) in
        _authenticated_request method url w = (settle (api_reply 1 w), w5) /\
        api_requests (trace w5) = (api_requests (trace w) + 2)%nat) /\
     (forall e w3,
        _fetch_new_token w2 = (Raise e, w3) ->
        _authenticated_request method url w = (Raise e, w3) /\
        api_requests (trace w3) = (api_requests (trace w) + 1)%nat) /\
     (forall w3 e w4,
        _fetch_new_token w2 = (Ok tt, w3) ->
        get_valid_token w3 = (Raise e, w4) ->
        _authenticated_request method url w = (Raise e, w4) /\
        api_requests (trace w4) = (api_requests (trace w) + 1)%nat)).
Proof.
  split; [apply auth_request_at_most_two|].
  intros tok w1 b Hg Hr w2. split; [apply fetch_posts_once|].
  assert (Ha1 : api_endpoint w1 = api_endpoint w).
  { pose proof (preserves_get_valid_token _ blind_api w) as H. rewrite Hg in H. exact H. }
  assert (Hd1 : do_request method url tok w1 = (Ok (401, b), w2)).
  { unfold w2. apply do_request_reply. rewrite Ha1, hd_nth. exact Hr. }
  assert (Hc2 : api_requests (trace w2) = (api_requests (trace w) + 1)%nat).
  { pose proof (preserves_get_valid_token _ blind_api_requests w) as H.
    rewrite Hg in H. simpl in H.
    unfold w2, client_request. simpl. rewrite api_requests_app, H. reflexivity. }
  assert (Hpass : forall e w', is_auth_error e = true ->
            (_fetch_new_token ;;; tok' <- get_valid_token ;;
             do_request method url tok') w2 = (Raise e, w') ->
            _authenticated_request method url w = (Raise e, w')).
  { intros e w' He Hin. unfold _authenticated_request, try_except.
    rewrite (bind_ok _ _ _ _ _ Hg), (bind_ok _ _ _ _ _ Hd1).
    simpl (fst (401, b) =? 401). cbv iota.
    rewrite (bind_raise _ _ _ _ _ Hin).
    destruct e; simpl in He; try discriminate; reflexivity. }
  split; [|split].
  - intros w3 tok' w4 Hf Hg' w5.
    assert (Ha3 : api_endpoint w3 = tl (api_endpoint w)).
    { pose proof (preserves_fetch _ blind_api w2) as H. rewrite Hf in H. simpl in H.
      rewrite H, Ha1. reflexivity. }
    assert (Ha4 : api_endpoint w4 = tl (api_endpoint w)).
    { pose proof (preserves_get_valid_token _ blind_api w3) as H. rewrite Hg' in H.
      simpl in H. rewrite H. exact Ha3. }
    split.
    + unfold _authenticated_request, try_except.
      rewrite (bind_ok _ _ _ _ _ Hg), (bind_ok _ _ _ _ _ Hd1).
      simpl (fst (401, b) =? 401). cbv iota.
      assert (Hin : (_fetch_new_token ;;; tok'0 <- get_valid_token ;;
                     do_request method url tok'0) w2
                    = do_request method url tok' w4).
      { rewrite (bind_ok _ _ _ _ _ Hf), (bind_ok _ _ _ _ _ Hg'). reflexivity. }
      unfold api_reply, settle. rewrite <- hd_tl_nth, <- Ha4. fold w5.
      destruct (hd NoReply (api_endpoint w4)) as [|status body] eqn:Hh.
      * rewrite (do_request_noreply method url tok' w4 Hh) in Hin.
        rewrite (bind_raise _ _ _ _ _ Hin). reflexivity.
      * rewrite (do_request_reply method url tok' w4 _ _ Hh) in Hin.
        rewrite (bind_ok _ _ _ _ _ Hin). simpl fst. simpl snd.
        unfold raise_for_status, bind, ret, raise.
        destruct (is_success status); reflexivity.
    + assert (Hc3 : api_requests (trace w3) = api_requests (trace w2)).
      { pose proof (preserves_fetch _ blind_api_requests w2) as H.
        rewrite Hf in H. exact H. }
      assert (Hc4 : api_requests (trace w4) = api_requests (trace w3)).
      { pose proof (preserves_get_valid_token _ blind_api_requests w3) as H.
        rewrite Hg' in H. exact H. }
      unfold w5, client_request. simpl. rewrite api_requests_app, Hc4, Hc3, Hc2.
      simpl. lia.
  - intros e w3 Hf. split.
    + apply Hpass; [eapply fetch_raises_auth; exact Hf|].
      rewrite (bind_raise _ _ _ _ _ Hf). reflexivity.
    + pose proof (preserves_fetch _ blind_api_requests w2) as H.
      rewrite Hf in H. simpl in H. rewrite H. exact Hc2.
  - intros w3 e w4 Hf Hg'. split.
    + apply Hpass; [eapply get_valid_token_raises_auth; exact Hg'|].
      rewrite (bind_ok _ _ _ _ _ Hf), (bind_raise _ _ _ _ _ Hg'). reflexivity.
    + pose proof (preserves_fetch _ blind_api_requests w2) as H.
      rewrite Hf in H. simpl in H.
      pose proof (preserves_get_valid_token _ blind_api_requests w3) as H'.
      rewrite Hg' in H'. simpl in H'. rewrite H', H. exact Hc2.
Qed.

(** ** AgentforceClient.stream_message *)

Lemma process_lines_app recurse ctx pre post w :
  process_lines recurse ctx (pre ++ post) w
  = (continue <- run_lines recurse ctx pre ;;
     if continue then process_lines recurse ctx post else ret tt) w.
Proof.
  revert w. induction pre as [|line pre IH]; intro w; simpl; [reflexivity|].
  destruct (startswith "data:" line); [|apply IH].
  destruct (process_data_line recurse ctx line w) as [[[|] | e] w1] eqn:E.
  - rewrite (bind_ok _ _ _ _ _ E). unfold bind at 1.
    rewrite (bind_ok _ _ _ _ _ E). apply IH.
  - rewrite (bind_ok _ _ _ _ _ E). unfold bind at 1.
    rewrite (bind_ok _ _ _ _ _ E). reflexivity.
  - rewrite (bind_raise _ _ _ _ _ E). unfold bind at 1.
    rewrite (bind_raise _ _ _ _ _ E). reflexivity.
Qed.

(** A call of [stream_message] is one pass of its body over a fresh
    stream, the nested calls being calls of [stream_message] again. *)
Lemma stream_message_eq session message ctx w :
  stream_message session message ctx w
  = stream_body (fun a => stream_message session a ctx) session message ctx w.
Proof.
  unfold stream_message at 1. rewrite stream_message_fuel_S.
  apply (sim_stream_body (streams_left w)); [|lia].
  intros k' Hk a w' Hw'. unfold stream_message.
  destruct (fuel_irrelevant session ctx k' (streams_left w') a w') as [E L]; [lia|].
  change (length (stream_endpoint w)) with (streams_left w). rewrite Hk.
  split; [exact E | exact L].
Qed.

(** The budget [stream_message] gives itself is never used up: the call
    always ends as the Python call does, in a return or in one of its
    exceptions. *)
Lemma stream_message_budget_suffices session message ctx w :
  fst (stream_message session message ctx w) <> Raise RecursionError.
Proof.
  unfold stream_message.
  destruct (fuel_irrelevant session ctx (streams_left w) (streams_left w) message w)
    as (_ & _ & Q); [lia|].
  exact Q.
Qed.

(** A larger budget changes nothing. *)
Lemma stream_message_any_budget session message ctx w fuel :
  (streams_left w < fuel)%nat ->
  stream_message_fuel fuel session message ctx w = stream_message session message ctx w.
Proof.
  intro Hf. destruct fuel as [|fuel]; [lia|]. unfold stream_message.
  destruct (fuel_irrelevant session ctx fuel (streams_left w) message w)
    as (E & _ & _); [lia|].
  exact E.
Qed.

(** The [except json.JSONDecodeError] clause lets no such error out of a
    line, whatever raised it. *)
Lemma process_data_line_catches recurse ctx line w :
  fst (process_data_line recurse ctx line w) <> Raise JSONDecodeError.
Proof.
  unfold process_data_line, try_except.
  destruct ((events <- loads_m (sse_payload line) ;; for_events recurse ctx events) w)
    as [[c | e] w1]; simpl; [discriminate|].
  destruct e; simpl; discriminate.
Qed.

Lemma process_lines_catches recurse ctx lines w :
  fst (process_lines recurse ctx lines w) <> Raise JSONDecodeError.
Proof.
  revert w. induction lines as [|line rest IH]; intro w; simpl; [discriminate|].
  destruct (startswith "data:" line); [|apply IH].
  unfold bind. pose proof (process_data_line_catches recurse ctx line w) as H.
  destruct (process_data_line recurse ctx line w) as [[[|] | e] w1]; simpl in *.
  - apply IH.
  - discriminate.
  - intro E. apply H. injection E as ->. reflexivity.
Qed.

Lemma stream_message_catches session message ctx w :
  fst (stream_message session message ctx w) <> Raise JSONDecodeError.
Proof.
  rewrite stream_message_eq. unfold stream_body, bind.
  pose proof (get_valid_token_raises_auth w) as Hg.
  destruct (get_valid_token w) as [[tok | e] w1]; simpl.
  2:{ intro E. injection E as ->. discriminate (Hg _ _ eq_refl). }
  unfold client_stream; cbv beta zeta.
  destruct (hd NoStream (stream_endpoint w1)) as [|status body lines]; simpl; [discriminate|].
  unfold raise_for_status. destruct (is_success status); simpl; [|discriminate].
  apply process_lines_catches.
Qed.

(** *** One event *)

Ltac run_handle Hty :=
  unfold handle_message; unfold bind at 1; unfold dict_get;
  rewrite Hty; unfold ret at 1; cbv beta iota;
  cbn [is_str String.eqb Ascii.eqb Bool.eqb]; cbv beta iota.

Lemma handle_text_chunk recurse ctx fields text w :
  obj_lookup "type" fields = Some (JStr "TextChunk") ->
  obj_lookup "message" fields = Some text ->
  handle_message recurse ctx (JObj fields) w = (Ok true, snd (emit (Yield text) w)).
Proof.
  intros Hty Hm. run_handle Hty.
  unfold bind, getitem. rewrite Hm. reflexivity.
Qed.

Lemma handle_inform recurse ctx fields result w :
  obj_lookup "type" fields = Some (JStr "Inform") ->
  obj_lookup "result" fields = Some result ->
  handle_message recurse ctx (JObj fields) w
  = (Ok true, snd (emit (Yield (JStr (nl ++ nl ++ dumps result))) w)).
Proof.
  intros Hty Hm. run_handle Hty.
  unfold bind, getitem. rewrite Hm. reflexivity.
Qed.

Lemma handle_text_chunk_no_message recurse ctx fields w :
  obj_lookup "type" fields = Some (JStr "TextChunk") ->
  obj_lookup "message" fields = None ->
  handle_message recurse ctx (JObj fields) w = (Raise (KeyError "message"), w).
Proof.
  intros Hty Hm. run_handle Hty.
  unfold bind, getitem. rewrite Hm. reflexivity.
Qed.

Lemma handle_inform_no_result recurse ctx fields w :
  obj_lookup "type" fields = Some (JStr "Inform") ->
  obj_lookup "result" fields = None ->
  handle_message recurse ctx (JObj fields) w = (Raise (KeyError "result"), w).
Proof.
  intros Hty Hm. run_handle Hty.
  unfold bind, getitem. rewrite Hm. reflexivity.
Qed.

Lemma handle_progress_no_ctx recurse fields w :
  obj_lookup "type" fields = Some (JStr "ProgressIndicator") ->
  handle_message recurse false (JObj fields) w = (Ok true, w).
Proof. intros Hty. run_handle Hty. reflexivity. Qed.

Lemma handle_progress_ctx recurse fields text w :
  obj_lookup "type" fields = Some (JStr "ProgressIndicator") ->
  obj_lookup "message" fields = Some text ->
  handle_message recurse true (JObj fields) w
  = (Ok true, snd (ctx_info ("ProgressIndicator = " ++ py_str text) w)).
Proof.
  intros Hty Hm. run_handle Hty.
  unfold bind, getitem. rewrite Hm. reflexivity.
Qed.

Lemma handle_inquire_no_ctx recurse fields question w :
  obj_lookup "type" fields = Some (JStr "Inquire") ->
  obj_lookup "message" fields = Some question ->
  handle_message recurse false (JObj fields) w = (Ok true, w).
Proof.
  intros Hty Hm. run_handle Hty.
  unfold bind, getitem. rewrite Hm. reflexivity.
Qed.

Lemma handle_inquire_stop recurse fields question w :
  obj_lookup "type" fields = Some (JStr "Inquire") ->
  obj_lookup "message" fields = Some question ->
  action (elicit_provider w (elicit_calls w) question) <> "accept" ->
  handle_message recurse true (JObj fields) w = (Ok false, snd (ctx_elicit question w)).
Proof.
  intros Hty Hm Ha. run_handle Hty.
  unfold bind at 1. unfold getitem. rewrite Hm. unfold ret at 1. cbv beta iota.
  unfold bind at 1. unfold ctx_elicit at 1. cbv beta iota.
  apply String.eqb_neq in Ha. rewrite Ha.
  destruct (String.eqb _ "decline"); reflexivity.
Qed.

Lemma handle_inquire_accept recurse fields question answer w :
  obj_lookup "type" fields = Some (JStr "Inquire") ->
  obj_lookup "message" fields = Some question ->
  elicit_provider w (elicit_calls w) question = Accepted answer ->
  handle_message recurse true (JObj fields) w
  = (emit (Yield (JStr (nl ++ nl ++ answer ++ nl ++ nl))) ;;;
     recurse answer ;;; ret true) (snd (ctx_elicit question w)).
Proof.
  intros Hty Hm Ha. run_handle Hty.
  unfold bind at 1. unfold getitem. rewrite Hm. unfold ret at 1. cbv beta iota.
  unfold bind at 1. unfold ctx_elicit at 1. cbv beta iota.
  rewrite Ha. reflexivity.
Qed.

(** *** One line *)

Lemma for_keys_skip recurse ctx events keys w :
  ~ In "message" keys -> for_keys recurse ctx events keys w = (Ok true, w).
Proof.
  induction keys as [|k rest IH]; intro Hn; simpl; [reflexivity|].
  destruct (String.eqb k "message") eqn:E.
  - apply String.eqb_eq in E. exfalso. apply Hn. left. exact E.
  - apply IH. intro H. apply Hn. right. exact H.
Qed.

Lemma for_keys_one recurse ctx fields msg keys w :
  NoDup keys -> In "message" keys ->
  obj_lookup "message" fields = Some msg ->
  for_keys recurse ctx (JObj fields) keys w = handle_message recurse ctx msg w.
Proof.
  intros Hd Hin Hm. induction keys as [|k rest IH]; [destruct Hin|].
  simpl. inversion Hd as [|k' rest' Hnk Hd']; subst.
  destruct (String.eqb k "message") eqn:E.
  - apply String.eqb_eq in E. subst k.
    unfold bind at 1. unfold getitem. rewrite Hm. unfold ret at 1. cbv beta iota.
    unfold bind.
    destruct (handle_message recurse ctx msg w) as [[[|] | e] w1]; try reflexivity.
    apply for_keys_skip. exact Hnk.
  - apply IH; [exact Hd'|]. destruct Hin as [H | H]; [|exact H].
    subst k. rewrite String.eqb_refl in E. discriminate.
Qed.

Lemma obj_lookup_in key fields v :
  obj_lookup key fields = Some v -> In key (map fst fields).
Proof.
  induction fields as [|[k x] rest IH]; simpl; [discriminate|].
  destruct (String.eqb k key) eqn:E.
  - apply String.eqb_eq in E. intros _. left. exact E.
  - intro H. right. apply IH. exact H.
Qed.

(** The body of the [try] for a line that carries [msg] is the branch taken
    for [msg]. *)
Lemma try_body_carries recurse ctx line msg w :
  carries line msg ->
  (events <- loads_m (sse_payload line) ;; for_events recurse ctx events) w
  = handle_message recurse ctx msg w.
Proof.
  intros (_ & fields & Hl & Hd & Hm).
  unfold bind at 1. unfold loads_m. rewrite Hl. unfold ret at 1. cbv beta iota.
  unfold for_events. apply for_keys_one; [exact Hd | | exact Hm].
  eapply obj_lookup_in. exact Hm.
Qed.

Lemma process_data_line_carries recurse ctx line msg w :
  carries line msg ->
  fst (handle_message recurse ctx msg w) <> Raise JSONDecodeError ->
  process_data_line recurse ctx line w = handle_message recurse ctx msg w.
Proof.
  intros Hc Hn. unfold process_data_line, try_except.
  rewrite (try_body_carries recurse ctx line msg w Hc).
  destruct (handle_message recurse ctx msg w) as [[c | e] w1]; [reflexivity|].
  destruct e; try reflexivity. exfalso. apply Hn. reflexivity.
Qed.

Lemma process_lines_carries recurse ctx line msg post w :
  carries line msg ->
  fst (handle_message recurse ctx msg w) <> Raise JSONDecodeError ->
  process_lines recurse ctx (line :: post) w
  = (continue <- handle_message recurse ctx msg ;;
     if continue then process_lines recurse ctx post else ret tt) w.
Proof.
  intros Hc Hn. simpl. destruct Hc as [Hs Hrest]. rewrite Hs.
  unfold bind. rewrite (process_data_line_carries recurse ctx line msg w); [reflexivity| |exact Hn].
  split; assumption.
Qed.

(** *** Skipped lines, elicitations and events without a context *)







Lemma client_stream_run session message tok w :
  client_stream session message tok w
  = (Ok (hd NoStream (stream_endpoint w)), snd (client_stream session message tok w)).
Proof. reflexivity. Qed.

(** C6, as the code has it: with a context attached, an [Inquire] event
    that is answered with an action other than accept ends the call of
    [stream_message] in which it is read: the elicitation is the last thing
    the call does, it returns normally, no fragment is produced and the
    lines that follow in its stream are not processed.  (A call that was
    itself made for an accepted answer returns to the call that made it.) *)
Theorem inquire_not_accepted_ends recurse line fields question (post : list string) w :
  carries line (JObj fields) ->
  obj_lookup "type" fields = Some (JStr "Inquire") ->
  obj_lookup "message" fields = Some question ->
  action (elicit_provider w (elicit_calls w) question) <> "accept" ->
  process_lines recurse true (line :: post) w = (Ok tt, snd (ctx_elicit question w))
  /\ fragments (trace (snd (ctx_elicit question w))) = fragments (trace w)
  /\ (forall session message tok w0 w1 status body pre,
        get_valid_token w0 = (Ok tok, w1) ->
        hd NoStream (stream_endpoint w0) = Stream status body (pre ++ line :: post) ->
        is_success status = true ->
        run_lines (fun a => stream_message session a true) true pre
          (snd (client_stream session message tok w1)) = (Ok true, w) ->
        stream_message session message true w0
        = (Ok tt, snd (ctx_elicit question w))).
Proof.
  intros Hc Hty Hm Ha.
  assert (Hstep : forall r,
            process_lines r true (line :: post) w = (Ok tt, snd (ctx_elicit question w))).
  { intro r. pose proof (handle_inquire_stop r fields question w Hty Hm Ha) as Hh.
    rewrite (process_lines_carries r true line (JObj fields) post w Hc).
    - unfold bind. rewrite Hh. reflexivity.
    - rewrite Hh. discriminate. }
  split; [apply Hstep|]. split.
  - simpl. rewrite fragments_app. simpl. apply app_nil_r.
  - intros session message tok w0 w1 status body pre Hg Hh Hs Hrun.
    assert (Hs1 : stream_endpoint w1 = stream_endpoint w0).
    { pose proof (keeps_get_valid_token w0) as H. rewrite Hg in H. exact H. }
    rewrite stream_message_eq. unfold stream_body.
    rewrite (bind_ok _ _ _ _ _ Hg).
    rewrite (bind_ok _ _ _ _ _ (client_stream_run session message tok w1)).
    rewrite Hs1, Hh.
    assert (Hr : raise_for_status status body (snd (client_stream session message tok w1))
                 = (Ok tt, snd (client_stream session message tok w1))).
    { unfold raise_for_status. rewrite Hs. reflexivity. }
    rewrite (bind_ok _ _ _ _ _ Hr).
    rewrite process_lines_app. rewrite (bind_ok _ _ _ _ _ Hrun). apply Hstep.
Qed.

Lemma handle_inquire_no_message recurse ctx fields w :
  obj_lookup "type" fields = Some (JStr "Inquire") ->
  obj_lookup "message" fields = None ->
  handle_message recurse ctx (JObj fields) w = (Raise (KeyError "message"), w).
Proof.
  intros Hty Hm. run_handle Hty.
  unfold bind, getitem. rewrite Hm. reflexivity.
Qed.

(** C10, as the code has it: with no context attached, a
    [ProgressIndicator] event, and an [Inquire] event that has its
    question, leave the world as it is (no fragment, no elicitation, no
    notice) and the lines that follow are processed.  An [Inquire] event
    without [message] raises [KeyError], which ends the stream: the
    question is written to the log before the context is looked at. *)
Theorem no_context_events_are_passed_over recurse line fields (post : list string) w :
  carries line (JObj fields) ->
  (obj_lookup "type" fields = Some (JStr "ProgressIndicator") \/
   (obj_lookup "type" fields = Some (JStr "Inquire") /\
    exists question, obj_lookup "message" fields = Some question) ->
   process_lines recurse false (line :: post) w = process_lines recurse false post w)
  /\
  (obj_lookup "type" fields = Some (JStr "Inquire") ->
   obj_lookup "message" fields = None ->
   process_lines recurse false (line :: post) w = (Raise (KeyError "message"), w)).
Proof.
  intros Hc. split.
  - intro Hty.
    assert (Hh : handle_message recurse false (JObj fields) w = (Ok true, w)).
    { destruct Hty as [Hp | [Hi [question Hq]]].
      - apply handle_progress_no_ctx. exact Hp.
      - eapply handle_inquire_no_ctx; eassumption. }
    rewrite (process_lines_carries recurse false line (JObj fields) post w Hc).
    + unfold bind. rewrite Hh. reflexivity.
    + rewrite Hh. discriminate.
  - intros Hty Hm.
    pose proof (handle_inquire_no_message recurse false fields w Hty Hm) as Hh.
    rewrite (process_lines_carries recurse false line (JObj fields) post w Hc).
    + unfold bind. rewrite Hh. reflexivity.
    + rewrite Hh. discriminate.
Qed.

(** C1, as the code has it: an [Inquire] event answered with accept
    produces the answer between blank lines, then runs a fresh
    [stream_message] on the same session with the answer as its message,
    whose fragments come in place; when that call returns, the remaining
    lines of the outer stream are processed. *)
Theorem inquire_accepted_continues session line fields question answer
  (post : list string) w :
  carries line (JObj fields) ->
  obj_lookup "type" fields = Some (JStr "Inquire") ->
  obj_lookup "message" fields = Some question ->
  elicit_provider w (elicit_calls w) question = Accepted answer ->
  process_lines (fun a => stream_message session a true) true (line :: post) w
  = (emit (Yield (JStr (nl ++ nl ++ answer ++ nl ++ nl))) ;;;
     stream_message session answer true ;;;
     process_lines (fun a => stream_message session a true) true post)
    (snd (ctx_elicit question w)).
Proof.
  intros Hc Hty Hm Ha.
  pose proof (handle_inquire_accept (fun a => stream_message session a true)
                fields question answer w Hty Hm Ha) as Hh.
  rewrite (process_lines_carries _ true line (JObj fields) post w Hc).
  - unfold bind at 1. rewrite Hh. unfold bind, emit. cbv beta iota.
    match goal with |- context [stream_message session answer true ?w0] =>
      destruct (stream_message session answer true w0) as [[[] | e] w1] end;
      reflexivity.
  - rewrite Hh. unfold bind, emit. cbv beta iota.
    match goal with |- context [stream_message session answer true ?w0] =>
      pose proof (stream_message_catches session answer true w0) as Hn;
      destruct (stream_message session answer true w0) as [[[] | e] w1] end.
    + discriminate.
    + simpl in *. intro E. apply Hn. injection E as ->. reflexivity.
Qed.

Lemma missing_message_aborts recurse ctx line fields (post : list string) w :
  carries line (JObj fields) ->
  obj_lookup "type" fields = Some (JStr "TextChunk") ->
  obj_lookup "message" fields = None ->
  process_lines recurse ctx (line :: post) w = (Raise (KeyError "message"), w).
Proof.
  intros Hc Hty Hm.
  pose proof (handle_text_chunk_no_message recurse ctx fields w Hty Hm) as Hh.
  rewrite (process_lines_carries recurse ctx line (JObj fields) post w Hc).
  - unfold bind. rewrite Hh. reflexivity.
  - rewrite Hh. discriminate.
Qed.

Lemma missing_result_aborts recurse ctx line fields (post : list string) w :
  carries line (JObj fields) ->
  obj_lookup "type" fields = Some (JStr "Inform") ->
  obj_lookup "result" fields = None ->
  process_lines recurse ctx (line :: post) w = (Raise (KeyError "result"), w).
Proof.
  intros Hc Hty Hm.
  pose proof (handle_inform_no_result recurse ctx fields w Hty Hm) as Hh.
  rewrite (process_lines_carries recurse ctx line (JObj fields) post w Hc).
  - unfold bind. rewrite Hh. reflexivity.
  - rewrite Hh. discriminate.
Qed.

(** The errors of a refresh: a reply outside 2xx gives [OAuthTokenError]
    with its status and body, no reply or a body that is not JSON gives
    [AcquireFailed] around the cause. *)
Lemma fetch_error_kinds w :
  (forall status body,
     hd NoReply (token_endpoint w) = Reply status body ->
     is_success status = false ->
     _fetch_new_token w = (Raise (OAuthTokenError status body), snd (post_token w)))
  /\ (hd NoReply (token_endpoint w) = NoReply ->
      _fetch_new_token w = (Raise (AcquireFailed TransportError), snd (post_token w)))
  /\ (forall status body,
        hd NoReply (token_endpoint w) = Reply status body ->
        is_success status = true ->
        loads body = None ->
        _fetch_new_token w = (Raise (AcquireFailed JSONDecodeError), snd (post_token w))).
Proof.
  unfold _fetch_new_token, fetch_body, now_plus, time_time, try_except, bind, post_token.
  cbv beta zeta. repeat split.
  - intros status body Hh Hs. rewrite Hh. simpl. unfold raise_for_status.
    rewrite Hs. reflexivity.
  - intros Hh. rewrite Hh. reflexivity.
  - intros status body Hh Hs Hl. rewrite Hh. simpl. unfold raise_for_status.
    rewrite Hs. simpl. unfold loads_m. rewrite Hl. reflexivity.
Qed.

(** ** Invariants of whole calls *)

Section Steps.
Variable R : World -> World -> Prop.
Hypothesis R_refl : forall w, R w w.
Hypothesis R_trans : forall w1 w2 w3, R w1 w2 -> R w2 w3 -> R w1 w3.

Lemma steps_ret {A} (a : A) : steps R (ret a).
Proof. intro w. apply R_refl. Qed.

Lemma steps_raise {A} (e : exn) : steps R (@raise A e).
Proof. intro w. apply R_refl. Qed.

Lemma steps_bind {A B} (m : M A) (f : A -> M B) :
  steps R m -> (forall a, steps R (f a)) -> steps R (bind m f).
Proof.
  intros Hm Hf w. unfold bind. specialize (Hm w).
  destruct (m w) as [[a | e] w1]; simpl in *; [|exact Hm].
  eapply R_trans; [exact Hm | apply Hf].
Qed.

Lemma steps_try {A} (m : M A) (handler : exn -> option (M A)) :
  steps R m -> (forall e h, handler e = Some h -> steps R h) ->
  steps R (try_except m handler).
Proof.
  intros Hm Hh w. unfold try_except. specialize (Hm w).
  destruct (m w) as [[a | e] w1]; simpl in *; [exact Hm|].
  destruct (handler e) as [h|] eqn:E; simpl; [|exact Hm].
  eapply R_trans; [exact Hm | apply (Hh e h E)].
Qed.

Lemma steps_getitem v k : steps R (getitem v k).
Proof.
  destruct v; simpl; try apply steps_raise.
  destruct (obj_lookup k fields); [apply steps_ret | apply steps_raise].
Qed.

Lemma steps_dict_get v k : steps R (dict_get v k).
Proof.
  destruct v; simpl; try apply steps_raise.
  destruct (obj_lookup k fields); apply steps_ret.
Qed.

Lemma steps_loads s : steps R (loads_m s).
Proof. unfold loads_m. destruct (loads s); [apply steps_ret | apply steps_raise]. Qed.

Lemma steps_raise_for_status st b : steps R (raise_for_status st b).
Proof.
  unfold raise_for_status. destruct (is_success st); [apply steps_ret | apply steps_raise].
Qed.

Hypothesis R_post : steps R post_token.
Hypothesis R_time : steps R time_time.
Hypothesis R_set_token : forall v, steps R (set_access_token v).
Hypothesis R_set_expiry : forall t, steps R (set_expires_at t).

Lemma steps_fetch : steps R _fetch_new_token.
Proof.
  unfold _fetch_new_token, fetch_body. apply steps_try.
  - apply steps_bind; [exact R_post|]. intros [|st b]; [apply steps_raise|].
    apply steps_bind; [apply steps_raise_for_status|]. intros _.
    apply steps_bind; [apply steps_loads|]. intro td.
    apply steps_bind; [apply steps_getitem|]. intro tok.
    apply steps_bind; [apply R_set_token|]. intros _.
    apply steps_bind.
    { destruct td; simpl; try apply steps_raise.
      destruct (obj_lookup _ fields); apply steps_ret. }
    intro ei. apply steps_bind; [|apply R_set_expiry].
    unfold now_plus. apply steps_bind; [exact R_time|].
    intro now. destruct ei; try apply steps_raise; try apply steps_ret.
    destruct (fits_float n); [apply steps_ret | apply steps_raise].
  - intros e h He. destruct e; inversion He; apply steps_raise.
Qed.

Lemma steps_get_valid_token : steps R get_valid_token.
Proof.
  unfold get_valid_token, token_is_fresh.
  apply steps_bind.
  - apply steps_bind; [intro w; apply R_refl|]. intro tok.
    destruct (truthy tok); [|apply steps_ret].
    apply steps_bind; [intro w; apply R_refl|]. intro exp.
    apply steps_bind; [exact R_time|]. intro now. apply steps_ret.
  - intros [|]; [intro w; apply R_refl|].
    apply steps_bind; [apply steps_fetch | intros _ w; apply R_refl].
Qed.

Variable sid : string.
Variable ctx : bool.
Hypothesis R_yield : forall f, steps R (emit (Yield f)).
Hypothesis R_warn : steps R (emit WarnNotJson).
Hypothesis R_notify : ctx = true -> forall v, steps R (emit (Notify v)).
Hypothesis R_elicit : ctx = true -> forall qn, steps R (ctx_elicit qn).
Hypothesis R_open : forall msg tok, steps R (client_stream sid msg tok).

Lemma steps_handle_message recurse msg :
  (forall a, steps R (recurse a)) -> steps R (handle_message recurse ctx msg).
Proof.
  intro Hr. unfold handle_message.
  apply steps_bind; [apply steps_dict_get|]. intro ty.
  destruct (is_str "TextChunk" ty).
  { apply steps_bind; [apply steps_getitem|]. intro text.
    apply steps_bind; [apply R_yield | intro; apply steps_ret]. }
  destruct (is_str "Inform" ty).
  { apply steps_bind; [apply steps_getitem|]. intro result.
    apply steps_bind; [apply R_yield | intro; apply steps_ret]. }
  destruct (is_str "ProgressIndicator" ty).
  { destruct ctx eqn:Hc; [|apply steps_ret].
    apply steps_bind; [apply steps_getitem|]. intro text.
    apply steps_bind; [apply R_notify; reflexivity | intro; apply steps_ret]. }
  destruct (is_str "Inquire" ty); [|apply steps_ret].
  apply steps_bind; [apply steps_getitem|]. intro qn.
  destruct ctx eqn:Hc; [|apply steps_ret].
  apply steps_bind; [apply R_elicit; reflexivity|]. intro el.
  destruct (String.eqb (action el) "accept").
  - apply steps_bind; [apply R_yield|]. intros _.
    apply steps_bind; [apply Hr | intro; apply steps_ret].
  - destruct (String.eqb (action el) "decline"); apply steps_ret.
Qed.

Lemma steps_for_items recurse events items :
  (forall a, steps R (recurse a)) -> steps R (for_items recurse ctx events items).
Proof.
  intro Hr. induction items as [|x rest IH]; simpl; [apply steps_ret|].
  destruct (is_str "message" x); [|exact IH].
  apply steps_bind; [apply steps_getitem|]. intro msg.
  apply steps_bind; [apply steps_handle_message, Hr|].
  intros [|]; [exact IH | apply steps_ret].
Qed.

Lemma steps_for_keys recurse events keys :
  (forall a, steps R (recurse a)) -> steps R (for_keys recurse ctx events keys).
Proof.
  intro Hr. induction keys as [|k rest IH]; simpl; [apply steps_ret|].
  destruct (String.eqb k "message"); [|exact IH].
  apply steps_bind; [apply steps_getitem|]. intro msg.
  apply steps_bind; [apply steps_handle_message, Hr|].
  intros [|]; [exact IH | apply steps_ret].
Qed.

Lemma steps_for_events recurse events :
  (forall a, steps R (recurse a)) -> steps R (for_events recurse ctx events).
Proof.
  intro Hr. destruct events; simpl; try apply steps_raise; try apply steps_ret.
  - apply steps_for_items, Hr.
  - apply steps_for_keys, Hr.
Qed.

Lemma steps_process_lines recurse lines :
  (forall a, steps R (recurse a)) -> steps R (process_lines recurse ctx lines).
Proof.
  intro Hr. induction lines as [|line rest IH]; simpl; [apply steps_ret|].
  destruct (startswith "data:" line); [|exact IH].
  apply steps_bind.
  - unfold process_data_line. apply steps_try.
    + apply steps_bind; [apply steps_loads|]. intro events.
      apply steps_for_events, Hr.
    + intros e h He. destruct e; inversion He.
      apply steps_bind; [exact R_warn | intro; apply steps_ret].
  - intros [|]; [exact IH | apply steps_ret].
Qed.

Lemma steps_stream_body recurse message :
  (forall a, steps R (recurse a)) -> steps R (stream_body recurse sid message ctx).
Proof.
  intro Hr. unfold stream_body.
  apply steps_bind; [apply steps_get_valid_token|]. intro tok.
  apply steps_bind; [apply R_open|]. intros [|status body lines]; [apply steps_raise|].
  apply steps_bind; [apply steps_raise_for_status|]. intros _.
  apply steps_process_lines, Hr.
Qed.

Lemma steps_stream_message_fuel fuel : forall message,
  steps R (stream_message_fuel fuel sid message ctx).
Proof.
  induction fuel as [|fuel IH]; intro message; [apply steps_raise|].
  intro w. rewrite stream_message_fuel_S. apply steps_stream_body. exact IH.
Qed.

Lemma steps_stream_message message : steps R (stream_message sid message ctx).
Proof. intro w. unfold stream_message. apply steps_stream_message_fuel. Qed.

End Steps.

(** ** Further properties of AuthManager *)


(** Whatever goes wrong in a token refresh or a token lookup, the exception
    that leaves [_fetch_new_token] or [get_valid_token] is one of the two
    [RuntimeError]s of [AuthManager]: no [HTTPStatusError], [KeyError],
    [TypeError] or connection error of the libraries gets out. *)
Theorem auth_manager_raises_runtime_errors_only (w w' : World) (e : exn) :
  (_fetch_new_token w = (Raise e, w') -> is_auth_error e = true) /\
  (get_valid_token w = (Raise e, w') -> is_auth_error e = true).
Proof.
  split; [apply fetch_raises_auth | apply get_valid_token_raises_auth].
Qed.

(** A token that [get_valid_token] returns is the token the cache holds
    when it returns, refreshed or not. *)
Theorem get_valid_token_returns_the_cached_token (w w' : World) (v : json) :
  get_valid_token w = (Ok v, w') -> access_token w' = v.
Proof.
  unfold get_valid_token. unfold bind at 1.
  destruct (token_is_fresh w) as [[[|] | e] w1]; simpl.
  - unfold get_access_token. intro H. injection H as <- <-. reflexivity.
  - unfold bind, get_access_token.
    destruct (_fetch_new_token w1) as [[[] | e] w2]; [|discriminate].
    intro H. injection H as <- <-. reflexivity.
  - discriminate.
Qed.



(** ** Further properties of the requests *)

Lemma do_request_raises method url tok w e w' :
  do_request method url tok w = (Raise e, w') -> e = TransportError.
Proof.
  unfold do_request, bind, client_request. cbv beta zeta.
  destruct (hd NoReply (api_endpoint w)); simpl; intro H; [|discriminate].
  injection H as <- _. reflexivity.
Qed.

Lemma check_status_outcome (response : Z * string) w :
  (raise_for_status (fst response) (snd response) ;;; ret response) w
  = (if is_success (fst response) then Ok response
     else Raise (HTTPStatusError (fst response) (snd response)), w).
Proof.
  unfold bind, raise_for_status. destruct (is_success (fst response)); reflexivity.
Qed.

(** The body of the [try] of [_authenticated_request] ends with a 2xx
    reply, an error of [AuthManager], a connection failure, or the
    [HTTPStatusError] of a reply outside 2xx. *)
Lemma request_body_outcome method url w :
  match fst ((tok <- get_valid_token ;;
              response <- do_request method url tok ;;
              response' <-
                (if fst response =? 401 then
                   _fetch_new_token ;;;
                   tok' <- get_valid_token ;;
                   do_request method url tok'
                 else ret response) ;;
              raise_for_status (fst response') (snd response') ;;;
              ret response') w) with
  | Ok (status, _) => is_success status = true
  | Raise e =>
      is_auth_error e = true \/ e = TransportError \/
      exists status body, e = HTTPStatusError status body /\ is_success status = false
  end.
Proof.
  destruct (get_valid_token w) as [[tok | e] w1] eqn:Hg.
  2:{ rewrite (bind_raise _ _ _ _ _ Hg). simpl. left.
      eapply get_valid_token_raises_auth; exact Hg. }
  rewrite (bind_ok _ _ _ _ _ Hg).
  destruct (do_request method url tok w1) as [[response | e] w2] eqn:Hd.
  2:{ rewrite (bind_raise _ _ _ _ _ Hd). simpl. right. left.
      eapply do_request_raises; exact Hd. }
  rewrite (bind_ok _ _ _ _ _ Hd).
  assert (Hfin : forall (r : Z * string) w0,
            match fst ((raise_for_status (fst r) (snd r) ;;; ret r) w0) with
            | Ok (status, _) => is_success status = true
            | Raise e0 =>
                is_auth_error e0 = true \/ e0 = TransportError \/
                exists status body, e0 = HTTPStatusError status body
                                    /\ is_success status = false
            end).
  { intros [st b] w0. rewrite check_status_outcome. simpl.
    destruct (is_success st) eqn:Hs; simpl; [exact Hs|].
    right. right. exists st, b. split; [reflexivity | exact Hs]. }
  destruct (fst response =? 401).
  - destruct (_fetch_new_token w2) as [[[] | e] w3] eqn:Hf.
    2:{ assert (E : (_fetch_new_token ;;; tok' <- get_valid_token ;;
                     do_request method url tok') w2 = (Raise e, w3))
          by (rewrite (bind_raise _ _ _ _ _ Hf); reflexivity).
        rewrite (bind_raise _ _ _ _ _ E). simpl. left.
        eapply fetch_raises_auth; exact Hf. }
    destruct (get_valid_token w3) as [[tok' | e] w4] eqn:Hg'.
    2:{ assert (E : (_fetch_new_token ;;; tok' <- get_valid_token ;;
                     do_request method url tok') w2 = (Raise e, w4))
          by (rewrite (bind_ok _ _ _ _ _ Hf), (bind_raise _ _ _ _ _ Hg'); reflexivity).
        rewrite (bind_raise _ _ _ _ _ E). simpl. left.
        eapply get_valid_token_raises_auth; exact Hg'. }
    destruct (do_request method url tok' w4) as [[response' | e] w5] eqn:Hd'.
    + assert (E : (_fetch_new_token ;;; tok'0 <- get_valid_token ;;
                   do_request method url tok'0) w2 = (Ok response', w5))
        by (rewrite (bind_ok _ _ _ _ _ Hf), (bind_ok _ _ _ _ _ Hg'); exact Hd').
      rewrite (bind_ok _ _ _ _ _ E). apply Hfin.
    + assert (E : (_fetch_new_token ;;; tok'0 <- get_valid_token ;;
                   do_request method url tok'0) w2 = (Raise e, w5))
        by (rewrite (bind_ok _ _ _ _ _ Hf), (bind_ok _ _ _ _ _ Hg'); exact Hd').
      rewrite (bind_raise _ _ _ _ _ E). simpl. right. left.
      eapply do_request_raises; exact Hd'.
  - unfold bind at 1. unfold ret at 1. apply Hfin.
Qed.

(** Every call of [_authenticated_request] ends in one of four ways: it
    returns a reply whose status is 2xx, or it raises an error of
    [AuthManager], a connection failure, or [ApiHttpError] with the status
    and body of a reply outside 2xx.  No [HTTPStatusError] gets out. *)
Theorem authenticated_request_outcomes (method url : string) (w : World) :
  well_settled (fst (_authenticated_request method url w)).
Proof.
  pose proof (request_body_outcome method url w) as H.
  unfold _authenticated_request, try_except.
  match goal with |- context [bind get_valid_token ?k w] =>
    destruct (bind get_valid_token k w) as [[[st b] | e] w'] end; simpl in *.
  - exact H.
  - destruct H as [H | [H | (st & b & -> & Hs)]].
    + destruct e; simpl in H; try discriminate; simpl; left; reflexivity.
    + subst e. simpl. right. left. reflexivity.
    + simpl. right. right. exists st, b. split; [reflexivity | exact Hs].
Qed.

(** When the first reply is not a 401, the request is sent once, the token
    endpoint is not called for it, and that reply settles the call. *)
Theorem request_without_401_is_sent_once (method url : string) (w w1 : World)
  (tok : json) (r : http_reply) :
  get_valid_token w = (Ok tok, w1) ->
  api_reply 0 w = r ->
  (forall body, r <> Reply 401 body) ->
  _authenticated_request method url w
  = (settle r, snd (client_request method url tok w1))
  /\ trace (snd (client_request method url tok w1))
     = (trace w1 ++ [ApiRequest method url tok])%list.
Proof.
  intros Hg Hr Hn. split; [|reflexivity].
  assert (Ha1 : api_endpoint w1 = api_endpoint w).
  { pose proof (preserves_get_valid_token _ blind_api w) as H. rewrite Hg in H. exact H. }
  unfold api_reply in Hr. rewrite <- hd_nth, <- Ha1 in Hr.
  unfold _authenticated_request, try_except. rewrite (bind_ok _ _ _ _ _ Hg).
  destruct r as [|status body].
  - rewrite (bind_raise _ _ _ _ _ (do_request_noreply method url tok w1 Hr)).
    reflexivity.
  - rewrite (bind_ok _ _ _ _ _ (do_request_reply method url tok w1 status body Hr)).
    simpl fst. destruct (status =? 401) eqn:E.
    { apply Z.eqb_eq in E. subst status. exfalso. apply (Hn body). reflexivity. }
    unfold bind at 1. unfold ret at 1. rewrite check_status_outcome. simpl.
    destruct (is_success status); reflexivity.
Qed.

(** When no token can be obtained, nothing is sent: both
    [_authenticated_request] and [stream_message] end in the error of the
    lookup, in the world the lookup left. *)
Theorem no_token_no_request (method url session message : string) (ctx : bool)
  (w w1 : World) (e : exn) :
  get_valid_token w = (Raise e, w1) ->
  _authenticated_request method url w = (Raise e, w1) /\
  stream_message session message ctx w = (Raise e, w1).
Proof.
  intro Hg. pose proof (get_valid_token_raises_auth w e w1 Hg) as Ha. split.
  - unfold _authenticated_request, try_except. rewrite (bind_raise _ _ _ _ _ Hg).
    destruct e; simpl in Ha; try discriminate; reflexivity.
  - rewrite stream_message_eq. unfold stream_body.
    rewrite (bind_raise _ _ _ _ _ Hg). reflexivity.
Qed.

(** A stream that cannot be opened, or whose reply is outside 2xx (a 401
    included), ends the call at once: no token refresh, no second attempt,
    no line read. *)
Theorem stream_failure_is_not_retried (session message : string) (ctx : bool)
  (w w1 : World) (tok : json) :
  get_valid_token w = (Ok tok, w1) ->
  (hd NoStream (stream_endpoint w) = NoStream ->
   stream_message session message ctx w
   = (Raise TransportError, snd (client_stream session message tok w1)))
  /\
  (forall status body lines,
     hd NoStream (stream_endpoint w) = Stream status body lines ->
     is_success status = false ->
     stream_message session message ctx w
     = (Raise (HTTPStatusError status body), snd (client_stream session message tok w1)))
  /\ trace (snd (client_stream session message tok w1))
     = (trace w1 ++ [StreamOpen session message tok])%list.
Proof.
  intro Hg.
  assert (Hs1 : stream_endpoint w1 = stream_endpoint w).
  { pose proof (keeps_get_valid_token w) as H. rewrite Hg in H. exact H. }
  split; [|split; [|reflexivity]].
  - intro Hh. rewrite stream_message_eq. unfold stream_body.
    rewrite (bind_ok _ _ _ _ _ Hg). unfold bind, client_stream. cbv beta zeta.
    rewrite Hs1, Hh. reflexivity.
  - intros status body lines Hh Hs. rewrite stream_message_eq. unfold stream_body.
    rewrite (bind_ok _ _ _ _ _ Hg). unfold bind, client_stream. cbv beta zeta.
    rewrite Hs1, Hh. cbv iota. unfold raise_for_status. rewrite Hs. reflexivity.
Qed.

(** ** Further properties of stream_message *)

Lemma extends_refl ok w : extends ok w w.
Proof. exists []. split; [symmetry; apply app_nil_r | constructor]. Qed.

Lemma extends_trans ok w1 w2 w3 :
  extends ok w1 w2 -> extends ok w2 w3 -> extends ok w1 w3.
Proof.
  intros (a & Ea & Fa) (b & Eb & Fb). exists (a ++ b)%list. split.
  - rewrite Eb, Ea. symmetry. apply app_assoc.
  - apply Forall_app. split; assumption.
Qed.

Lemma extends_same ok {A} (m : M A) :
  preserves trace m -> steps (extends ok) m.
Proof. intros H w. exists []. rewrite (H w). split; [symmetry; apply app_nil_r | constructor]. Qed.

Lemma extends_one ok {A} (m : M A) (e : event) :
  (forall w, trace (snd (m w)) = (trace w ++ [e])%list) -> ok e ->
  steps (extends ok) m.
Proof. intros H He w. exists [e]. split; [apply H | repeat constructor; exact He]. Qed.

(** A call of [stream_message] sends nothing through
    [_authenticated_request] and opens streams on its own session only,
    the streams of the nested calls included. *)
Theorem stream_message_stays_on_its_session (session message : string) (ctx : bool)
  (w : World) :
  extends (stream_event session) w (snd (stream_message session message ctx w)).
Proof.
  apply (steps_stream_message (extends (stream_event session))
           (extends_refl _) (extends_trans _)).
  - apply (extends_one _ _ TokenPost); [reflexivity | exact I].
  - apply extends_same. intro w0; reflexivity.
  - intro v. apply extends_same. intro w0; reflexivity.
  - intro t. apply extends_same. intro w0; reflexivity.
  - intro f. apply (extends_one _ _ (Yield f)); [reflexivity | exact I].
  - apply (extends_one _ _ WarnNotJson); [reflexivity | exact I].
  - intros _ v. apply (extends_one _ _ (Notify v)); [reflexivity | exact I].
  - intros _ qn. apply (extends_one _ _ (Elicit qn)); [reflexivity | exact I].
  - intros msg tok. apply (extends_one _ _ (StreamOpen session msg tok));
      [reflexivity | reflexivity].
Qed.

Lemma handle_message_no_ctx r1 r2 msg :
  handle_message r1 false msg = handle_message r2 false msg.
Proof. reflexivity. Qed.

Lemma for_keys_no_ctx r1 r2 events keys :
  for_keys r1 false events keys = for_keys r2 false events keys.
Proof.
  induction keys as [|k rest IH]; simpl; [reflexivity|]. rewrite IH. reflexivity.
Qed.

Lemma for_items_no_ctx r1 r2 events items :
  for_items r1 false events items = for_items r2 false events items.
Proof.
  induction items as [|x rest IH]; simpl; [reflexivity|]. rewrite IH. reflexivity.
Qed.

Lemma process_data_line_no_ctx r1 r2 line w :
  process_data_line r1 false line w = process_data_line r2 false line w.
Proof.
  unfold process_data_line, try_except, bind.
  destruct (loads_m (sse_payload line) w) as [[events | e] w1]; [|reflexivity].
  destruct events; simpl; try reflexivity.
  - rewrite (for_items_no_ctx r1 r2). reflexivity.
  - rewrite (for_keys_no_ctx r1 r2). reflexivity.
Qed.

(** Without a context the nested call is never made. *)
Lemma process_lines_no_ctx r1 r2 lines w :
  process_lines r1 false lines w = process_lines r2 false lines w.
Proof.
  revert w. induction lines as [|line rest IH]; intro w; simpl; [reflexivity|].
  destruct (startswith "data:" line); [|apply IH].
  unfold bind. rewrite (process_data_line_no_ctx r1 r2).
  destruct (process_data_line r2 false line w) as [[[|] | e] w1]; try reflexivity.
  apply IH.
Qed.

Lemma stream_opens_app t1 t2 :
  stream_opens (t1 ++ t2) = (stream_opens t1 + stream_opens t2)%nat.
Proof.
  induction t1 as [|e t1 IH]; simpl; [reflexivity|].
  destruct e; simpl; rewrite IH; reflexivity.
Qed.

(** Without a context, a call of [stream_message] never elicits and never
    notifies, whatever events the stream carries, and it opens at most one
    stream. *)
Theorem stream_without_context_is_silent (session message : string) (w : World) :
  extends silent_event w (snd (stream_message session message false w)) /\
  (stream_opens (trace (snd (stream_message session message false w)))
   <= S (stream_opens (trace w)))%nat.
Proof.
  split.
  - apply (steps_stream_message (extends silent_event)
             (extends_refl _) (extends_trans _)).
    + apply (extends_one _ _ TokenPost); [reflexivity | exact I].
    + apply extends_same. intro w0; reflexivity.
    + intro v. apply extends_same. intro w0; reflexivity.
    + intro t. apply extends_same. intro w0; reflexivity.
    + intro f. apply (extends_one _ _ (Yield f)); [reflexivity | exact I].
    + apply (extends_one _ _ WarnNotJson); [reflexivity | exact I].
    + discriminate.
    + discriminate.
    + intros msg tok. apply (extends_one _ _ (StreamOpen session msg tok));
        [reflexivity | exact I].
  - rewrite stream_message_eq. unfold stream_body, bind.
    pose proof (preserves_get_valid_token (fun w0 => stream_opens (trace w0))
                  ltac:(repeat split; intros; intro w0; simpl; try reflexivity;
                        rewrite stream_opens_app; simpl; lia) w) as Hg.
    destruct (get_valid_token w) as [[tok | e] w1]; simpl in Hg; [|simpl; lia].
    unfold client_stream; cbv beta zeta.
    destruct (hd NoStream (stream_endpoint w1)) as [|status body lines]; simpl.
    { rewrite stream_opens_app. simpl. lia. }
    unfold raise_for_status. destruct (is_success status); simpl.
    2:{ rewrite stream_opens_app. simpl. lia. }
    rewrite (process_lines_no_ctx _ (fun _ => ret tt)).
    match goal with |- context [process_lines _ false lines ?w0] =>
      pose proof (steps_process_lines
                    (fun a b => stream_opens (trace b) = stream_opens (trace a))
                    (fun _ => eq_refl)
                    (fun a b c H1 H2 => eq_trans H2 H1)
                    false
                    (fun f w3 => ltac:(simpl; rewrite stream_opens_app; simpl; lia))
                    (fun w3 => ltac:(simpl; rewrite stream_opens_app; simpl; lia))
                    ltac:(discriminate) ltac:(discriminate)
                    (fun _ => ret tt) lines (fun _ _ => eq_refl) w0) as Hp end.
    rewrite Hp. simpl. rewrite stream_opens_app. simpl. lia.
Qed.

Lemma obj_lookup_none key fields :
  obj_lookup key fields = None -> ~ In key (map fst fields).
Proof.
  induction fields as [|[k x] rest IH]; simpl; [intros _ []|].
  destruct (String.eqb k key) eqn:E; [discriminate|].
  intros H [Hk | Hin]; [|exact (IH H Hin)].
  subst k. rewrite String.eqb_refl in E. discriminate.
Qed.

Lemma for_items_skip recurse ctx events items w :
  existsb (is_str "message") items = false ->
  for_items recurse ctx events items w = (Ok true, w).
Proof.
  induction items as [|x rest IH]; simpl; [reflexivity|].
  destruct (is_str "message" x); simpl; [discriminate | exact IH].
Qed.

Lemma for_items_hit recurse ctx all items w :
  existsb (is_str "message") items = true ->
  for_items recurse ctx (JArr all) items w = (Raise TypeError, w).
Proof.
  induction items as [|x rest IH]; simpl; [discriminate|].
  destruct (is_str "message" x); simpl; [reflexivity | exact IH].
Qed.

(** A step of the loop whose [try] body ends in [o] without a
    [JSONDecodeError]. *)
Lemma data_line_step recurse ctx line (post : list string) w (o : outcome bool) w1 :
  startswith "data:" line = true ->
  (events <- loads_m (sse_payload line) ;; for_events recurse ctx events) w = (o, w1) ->
  o <> Raise JSONDecodeError ->
  process_lines recurse ctx (line :: post) w
  = match o with
    | Ok true => process_lines recurse ctx post w1
    | Ok false => (Ok tt, w1)
    | Raise e => (Raise e, w1)
    end.
Proof.
  intros Hs Hb Hn. simpl. rewrite Hs. unfold bind at 1.
  unfold process_data_line, try_except. rewrite Hb.
  destruct o as [[|] | e]; try reflexivity.
  destruct e; try reflexivity. exfalso. apply Hn. reflexivity.
Qed.

(** Payloads that are JSON and end the stream in an exception the loop does
    not catch: a number, a boolean or [null] is not iterable, a list with
    the item [message] is indexed with a string, and a [message] that is not
    an object has no [get].  The lines that follow are not processed. *)
Theorem odd_payload_aborts_stream recurse ctx line (post : list string) w :
  startswith "data:" line = true ->
  (forall v, loads (sse_payload line) = Some v ->
     v = JNull \/ (exists b, v = JBool b) \/ (exists n, v = JNum n) ->
     process_lines recurse ctx (line :: post) w = (Raise TypeError, w))
  /\
  (forall items, loads (sse_payload line) = Some (JArr items) ->
     existsb (is_str "message") items = true ->
     process_lines recurse ctx (line :: post) w = (Raise TypeError, w))
  /\
  (forall msg, carries line msg ->
     (forall fields, msg <> JObj fields) ->
     process_lines recurse ctx (line :: post) w = (Raise AttributeError, w)).
Proof.
  intro Hs. split; [|split].
  - intros v Hl Hv.
    rewrite (data_line_step recurse ctx line post w (Raise TypeError) w Hs);
      [reflexivity | | discriminate].
    unfold bind, loads_m. rewrite Hl.
    destruct Hv as [-> | [[b ->] | [n ->]]]; reflexivity.
  - intros items Hl Hi.
    rewrite (data_line_step recurse ctx line post w (Raise TypeError) w Hs);
      [reflexivity | | discriminate].
    unfold bind at 1. unfold loads_m. rewrite Hl. unfold ret at 1. cbv beta iota.
    apply for_items_hit. exact Hi.
  - intros msg Hc Hm.
    rewrite (process_lines_carries recurse ctx line msg post w Hc).
    + unfold bind, handle_message, bind, dict_get.
      destruct msg; try reflexivity. exfalso. apply (Hm fields). reflexivity.
    + unfold handle_message, bind, dict_get.
      destruct msg; simpl; try discriminate. exfalso. apply (Hm fields). reflexivity.
Qed.

(** Payloads that are JSON and are passed over, the world unchanged and the
    next line read: an object without a [message] key, a string, a list
    without the item [message], and a [message] whose [type] is none of the
    four event types (or is absent). *)
Theorem unrecognised_payload_is_ignored recurse ctx line (post : list string) w :
  startswith "data:" line = true ->
  (forall fields, loads (sse_payload line) = Some (JObj fields) ->
     obj_lookup "message" fields = None ->
     process_lines recurse ctx (line :: post) w = process_lines recurse ctx post w)
  /\
  (forall text, loads (sse_payload line) = Some (JStr text) ->
     process_lines recurse ctx (line :: post) w = process_lines recurse ctx post w)
  /\
  (forall items, loads (sse_payload line) = Some (JArr items) ->
     existsb (is_str "message") items = false ->
     process_lines recurse ctx (line :: post) w = process_lines recurse ctx post w)
  /\
  (forall fields ty, carries line (JObj fields) ->
     (ty = JNull /\ obj_lookup "type" fields = None \/ obj_lookup "type" fields = Some ty) ->
     is_str "TextChunk" ty = false -> is_str "Inform" ty = false ->
     is_str "ProgressIndicator" ty = false -> is_str "Inquire" ty = false ->
     process_lines recurse ctx (line :: post) w = process_lines recurse ctx post w).
Proof.
  intro Hs. split; [|split; [|split]].
  - intros fields Hl Hm.
    rewrite (data_line_step recurse ctx line post w (Ok true) w Hs);
      [reflexivity | | discriminate].
    unfold bind at 1. unfold loads_m. rewrite Hl. unfold ret at 1. cbv beta iota.
    apply for_keys_skip. apply obj_lookup_none. exact Hm.
  - intros text Hl.
    rewrite (data_line_step recurse ctx line post w (Ok true) w Hs);
      [reflexivity | | discriminate].
    unfold bind, loads_m. rewrite Hl. reflexivity.
  - intros items Hl Hi.
    rewrite (data_line_step recurse ctx line post w (Ok true) w Hs);
      [reflexivity | | discriminate].
    unfold bind at 1. unfold loads_m. rewrite Hl. unfold ret at 1. cbv beta iota.
    apply for_items_skip. exact Hi.
  - intros fields ty Hc Hty H1 H2 H3 H4.
    assert (Hh : handle_message recurse ctx (JObj fields) w = (Ok true, w)).
    { unfold handle_message. unfold bind at 1. unfold dict_get.
      destruct Hty as [[-> Hty] | Hty]; rewrite Hty; unfold ret at 1; cbv beta iota.
      - reflexivity.
      - rewrite H1, H2, H3, H4. reflexivity. }
    rewrite (process_lines_carries recurse ctx line (JObj fields) post w Hc).
    + unfold bind. rewrite Hh. reflexivity.
    + rewrite Hh. discriminate.
Qed.

(** With a context attached, a [ProgressIndicator] event is sent to the
    client as the notice [ProgressIndicator = ] followed by its message, and
    is no output fragment; the next line is read. *)
Theorem progress_is_notified_not_yielded recurse line fields text
  (post : list string) w :
  carries line (JObj fields) ->
  obj_lookup "type" fields = Some (JStr "ProgressIndicator") ->
  obj_lookup "message" fields = Some text ->
  process_lines recurse true (line :: post) w
  = process_lines recurse true post
      (snd (ctx_info ("ProgressIndicator = " ++ py_str text) w))
  /\ trace (snd (ctx_info ("ProgressIndicator = " ++ py_str text) w))
     = (trace w ++ [Notify (JStr ("ProgressIndicator = " ++ py_str text))])%list
  /\ fragments (trace (snd (ctx_info ("ProgressIndicator = " ++ py_str text) w)))
     = fragments (trace w).
Proof.
  intros Hc Hty Hm.
  pose proof (handle_progress_ctx recurse fields text w Hty Hm) as Hh.
  split; [|split; [reflexivity|]].
  - rewrite (process_lines_carries recurse true line (JObj fields) post w Hc).
    + unfold bind. rewrite Hh. reflexivity.
    + rewrite Hh. discriminate.
  - simpl. rewrite fragments_app. simpl. apply app_nil_r.
Qed.

(** [line.lstrip("data:")] removes leading characters of the set d, a, t
    and colon, not the prefix: after [data:] and a space the payload is the
    stripped rest of the line, but without the space a payload loses every
    leading character of that set, so that the JSON literal [true] is read
    as [rue]. *)
Theorem sse_payload_strips_a_character_set (rest : string) :
  sse_payload ("data: " ++ rest) = strip rest /\
  (forall c, ascii_in c "data:" = true ->
     sse_payload ("data:" ++ String c rest) = sse_payload ("data:" ++ rest)) /\
  sse_payload "data:true" = "rue".
Proof.
  split; [reflexivity|]. split; [|reflexivity].
  intros c Hc. unfold sse_payload, lstrip_chars. simpl. rewrite Hc. reflexivity.
Qed.

(** ** start_session, end_session and ask_agentforce_stream *)

Lemma blind_fragments : auth_blind (fun w => fragments (trace w)).
Proof.
  repeat split; intros; intro w; simpl; try reflexivity.
  rewrite fragments_app. simpl. apply app_nil_r.
Qed.

Lemma preserves_ctx_info msg : preserves (fun w => fragments (trace w)) (ctx_info msg).
Proof. intro w. simpl. rewrite fragments_app. simpl. apply app_nil_r. Qed.

Lemma preserves_do_request_fragments method url tok :
  preserves (fun w => fragments (trace w)) (do_request method url tok).
Proof.
  intro w. unfold do_request, bind, client_request. cbv beta zeta.
  destruct (hd NoReply (api_endpoint w)); simpl; rewrite fragments_app; simpl;
    apply app_nil_r.
Qed.

(** The requests produce no output fragment. *)
Lemma preserves_request_fragments method url :
  preserves (fun w => fragments (trace w)) (_authenticated_request method url).
Proof.
  unfold _authenticated_request. apply preserves_try.
  - apply preserves_bind; [apply preserves_get_valid_token, blind_fragments|]. intro tok.
    apply preserves_bind; [apply preserves_do_request_fragments|]. intro response.
    apply preserves_bind.
    + destruct (fst response =? 401); [|apply preserves_ret].
      apply preserves_bind; [apply preserves_fetch, blind_fragments|]. intros _.
      apply preserves_bind; [apply preserves_get_valid_token, blind_fragments|].
      intro tok'. apply preserves_do_request_fragments.
    + intro response'. apply preserves_bind; [apply preserves_raise_for_status|].
      intros _. apply preserves_ret.
  - intros e h He. destruct e; inversion He. apply preserves_raise.
Qed.

Lemma preserves_start_session uuid :
  preserves (fun w => fragments (trace w)) (start_session uuid).
Proof.
  unfold start_session.
  apply preserves_bind; [apply preserves_request_fragments|]. intro response.
  apply preserves_bind; [apply preserves_loads | intro; apply preserves_dict_get].
Qed.

Lemma finally_clause_ok session_id w :
  fst (finally_clause session_id w) = Ok tt.
Proof.
  unfold finally_clause. destruct (truthy session_id); [|reflexivity].
  unfold try_except, end_session.
  match goal with |- context [bind ?m ?k w] =>
    destruct (bind m k w) as [[[] | e] w1] end; reflexivity.
Qed.

Lemma preserves_finally_clause session_id :
  preserves (fun w => fragments (trace w)) (finally_clause session_id).
Proof.
  unfold finally_clause. destruct (truthy session_id); [|apply preserves_ret].
  apply preserves_try.
  - apply preserves_bind; [|intro; apply preserves_ctx_info].
    unfold end_session.
    apply preserves_bind; [apply preserves_request_fragments | intro; apply preserves_ret].
  - intros e h He. injection He as <-. apply preserves_ctx_info.
Qed.

Lemma except_clause_run e w :
  fst (except_clause e w) = Ok tt /\
  fragments (trace (snd (except_clause e w)))
  = (fragments (trace w) ++ [error_fragment e])%list.
Proof.
  split; [reflexivity|]. simpl. rewrite !fragments_app. simpl.
  rewrite app_nil_r. reflexivity.
Qed.

(** The world in which [ask_agentforce_stream] calls [start_session]. *)
Lemma ask_unfold user_query user_key w :
  ask_agentforce_stream user_query user_key w
  = match start_session user_key
            (snd (ctx_info ("Starting Agentforce session with external key: "
                            ++ user_key) w)) with
    | (Raise e, w') => (except_clause e ;;; finally_clause JNull) w'
    | (Ok session_id, w') =>
        (try_except (stream_query session_id user_query)
           (fun e => Some (except_clause e)) ;;;
         finally_clause session_id) w'
    end.
Proof. reflexivity. Qed.

(** Whatever [start_session], [stream_message] and [end_session] raise,
    [ask_agentforce_stream] returns normally: an error of the first two
    becomes a fragment, an error of the last a warning. *)
Theorem ask_agentforce_stream_never_raises (user_query user_key : string) (w : World) :
  fst (ask_agentforce_stream user_query user_key w) = Ok tt.
Proof.
  rewrite ask_unfold.
  destruct (start_session user_key _) as [[session_id | e] w1].
  - unfold bind, try_except.
    destruct (stream_query session_id user_query w1) as [[[] | e] w2].
    + apply finally_clause_ok.
    + apply finally_clause_ok.
  - unfold bind. simpl. reflexivity.
Qed.

(** The [finally] clause never raises and never adds or changes a
    fragment, whether [end_session] succeeds or fails; for a session id that
    is not truthy it does nothing. *)
Theorem session_end_failure_is_swallowed (session_id : json) (w : World) :
  fst (finally_clause session_id w) = Ok tt /\
  fragments (trace (snd (finally_clause session_id w))) = fragments (trace w) /\
  (truthy session_id = false -> finally_clause session_id w = (Ok tt, w)).
Proof.
  split; [apply finally_clause_ok|]. split; [apply preserves_finally_clause|].
  intro H. unfold finally_clause. rewrite H. reflexivity.
Qed.

(** The fragments of [ask_agentforce_stream]: when [start_session] raises,
    the error fragment alone; otherwise the fragments of [stream_message] on
    the session that was started, followed by the error fragment when
    [stream_message] raised.  What [end_session] does changes none of
    them. *)
Theorem ask_agentforce_stream_fragments (user_query user_key : string) (w : World) :
  let w1 := snd (ctx_info ("Starting Agentforce session with external key: "
                           ++ user_key) w) in
  (forall e w2,
     start_session user_key w1 = (Raise e, w2) ->
     fragments (trace (snd (ask_agentforce_stream user_query user_key w)))
     = (fragments (trace w) ++ [error_fragment e])%list)
  /\
  (forall session_id w2,
     start_session user_key w1 = (Ok session_id, w2) ->
     let w2' := snd (ctx_info ("Agentforce Session ID received: "
                               ++ py_str session_id ++ ". Streaming query...") w2) in
     (forall w3,
        stream_message (py_str session_id) user_query true w2' = (Ok tt, w3) ->
        fragments (trace (snd (ask_agentforce_stream user_query user_key w)))
        = fragments (trace w3))
     /\
     (forall e w3,
        stream_message (py_str session_id) user_query true w2' = (Raise e, w3) ->
        fragments (trace (snd (ask_agentforce_stream user_query user_key w)))
        = (fragments (trace w3) ++ [error_fragment e])%list)).
Proof.
  intro w1. split.
  - intros e w2 Hst. rewrite ask_unfold. fold w1. rewrite Hst.
    unfold bind. simpl.
    pose proof (preserves_start_session user_key w1) as Hp. rewrite Hst in Hp.
    simpl in Hp. rewrite !fragments_app, Hp. unfold w1. simpl.
    rewrite fragments_app. simpl. rewrite !app_nil_r. reflexivity.
  - intros session_id w2 Hst w2'. split.
    + intros w3 Hsm. rewrite ask_unfold. fold w1. rewrite Hst.
      assert (Hq : stream_query session_id user_query w2
                   = (Ok tt, snd (ctx_info "Agentforce stream completed." w3))).
      { unfold stream_query. unfold bind at 1. unfold ctx_info at 1, emit at 1.
        cbv beta iota. fold w2'.
        change (mkWorld (access_token w2) (expires_at w2) (clock w2) (clock_reads w2)
                  (token_endpoint w2) (api_endpoint w2) (stream_endpoint w2)
                  (elicit_provider w2) (elicit_calls w2)
                  (trace w2 ++ [Notify (JStr ("Agentforce Session ID received: "
                                              ++ py_str session_id
                                              ++ ". Streaming query..."))]))
          with w2'.
        rewrite (bind_ok _ _ _ _ _ Hsm). reflexivity. }
      unfold bind at 1. unfold try_except. rewrite Hq.
      rewrite (preserves_finally_clause session_id). apply preserves_ctx_info.
    + intros e w3 Hsm. rewrite ask_unfold. fold w1. rewrite Hst.
      assert (Hq : stream_query session_id user_query w2 = (Raise e, w3)).
      { unfold stream_query. unfold bind at 1. unfold ctx_info at 1, emit at 1.
        cbv beta iota.
        change (mkWorld (access_token w2) (expires_at w2) (clock w2) (clock_reads w2)
                  (token_endpoint w2) (api_endpoint w2) (stream_endpoint w2)
                  (elicit_provider w2) (elicit_calls w2)
                  (trace w2 ++ [Notify (JStr ("Agentforce Session ID received: "
                                              ++ py_str session_id
                                              ++ ". Streaming query..."))]))
          with w2'.
        rewrite (bind_raise _ _ _ _ _ Hsm). reflexivity. }
      unfold bind at 1. unfold try_except. rewrite Hq.
      destruct (except_clause_run e w3) as [Ho Hf].
      destruct (except_clause e w3) as [[[] | e'] w4] eqn:Hx; simpl in Ho; [|discriminate].
      rewrite (preserves_finally_clause session_id). simpl. exact Hf.
Qed.

(** When [start_session] raises, nothing else is attempted: no stream is
    opened and no session is ended; the client is told the error and gets it
    as the only fragment. *)
Theorem failed_session_start_ends_the_call (user_query user_key : string)
  (w w2 : World) (e : exn) :
  start_session user_key
    (snd (ctx_info ("Starting Agentforce session with external key: " ++ user_key) w))
  = (Raise e, w2) ->
  fst (ask_agentforce_stream user_query user_key w) = Ok tt /\
  trace (snd (ask_agentforce_stream user_query user_key w))
  = (trace w2 ++ [Notify (JStr (error_detail e)); Yield (error_fragment e)])%list.
Proof.
  intro Hst. rewrite ask_unfold, Hst. unfold bind. simpl.
  split; [reflexivity|]. rewrite <- app_assoc. reflexivity.
Qed.


(** A session reply without [sessionId] does not stop
    [ask_agentforce_stream]: the query is streamed on the session named
    [None], and since [None] is not truthy no session is ended. *)
Theorem missing_session_id_is_streamed_on_None (user_query user_key : string)
  (w w2 : World) :
  start_session user_key
    (snd (ctx_info ("Starting Agentforce session with external key: " ++ user_key) w))
  = (Ok JNull, w2) ->
  ask_agentforce_stream user_query user_key w
  = try_except
      (ctx_info "Agentforce Session ID received: None. Streaming query..." ;;;
       stream_message "None" user_query true ;;;
       ctx_info "Agentforce stream completed.")
      (fun e => Some (except_clause e)) w2.
Proof.
  intro Hst. rewrite ask_unfold, Hst.
  change (stream_query JNull user_query)
    with (ctx_info "Agentforce Session ID received: None. Streaming query..." ;;;
          stream_message "None" user_query true ;;;
          ctx_info "Agentforce stream completed.").
  unfold bind at 1.
  match goal with |- context [try_except ?m ?h w2] =>
    destruct (try_except m h w2) as [[[] | e] w3] eqn:E end.
  - reflexivity.
  - exfalso. unfold try_except in E.
    match type of E with context [bind ?m ?k w2] =>
      destruct (bind m k w2) as [[[] | e0] w4] end; [discriminate|].
    simpl in E. discriminate.
Qed.

End Bridge.

(** ** Concrete texts and scripted runs *)

Example loads_chunk :
  json_loads (sse_payload chunk_line)
  = Some (JObj [("message", JObj [("type", JStr "TextChunk"); ("message", JStr "Hi")])]).
Proof. vm_compute. reflexivity. Qed.

Example loads_inform :
  json_loads (sse_payload inform_line)
  = Some (JObj [("message", JObj [("type", JStr "Inform"); ("result", JObj [("a", JNum 1)])])]).
Proof. vm_compute. reflexivity. Qed.

Example dumps_inform :
  json_dumps_indent2 (JObj [("a", JNum 1)])
  = "{" ++ nl ++ "  " ++ q "a" ++ ": 1" ++ nl ++ "}".
Proof. vm_compute. reflexivity. Qed.

Ltac carries_here :=
  split; [reflexivity|]; eexists; split; [vm_compute; reflexivity|];
  split; [repeat constructor; simpl; intuition discriminate | reflexivity].

(** C4: the two lines of the example decode to the fragments [Hi] and two
    newlines followed by the indent-2 text of the result, in that order; in
    general a line carrying a [TextChunk] event yields its [message] and a
    line carrying an [Inform] event yields two newlines followed by
    [json.dumps(result, indent=2)], the lines after it being processed
    next. *)
Theorem text_chunk_and_inform_fragments :
  fragments (trace (snd (stream_message json_loads json_dumps_indent2
                           "sid" "hello" false world_decode)))
  = [JStr "Hi"; inform_fragment]
  /\
  (forall loads dumps recurse ctx line fields text (post : list string) w,
     carries loads line (JObj fields) ->
     obj_lookup "type" fields = Some (JStr "TextChunk") ->
     obj_lookup "message" fields = Some text ->
     process_lines loads dumps recurse ctx (line :: post) w
     = process_lines loads dumps recurse ctx post (snd (emit (Yield text) w)))
  /\
  (forall loads dumps recurse ctx line fields result (post : list string) w,
     carries loads line (JObj fields) ->
     obj_lookup "type" fields = Some (JStr "Inform") ->
     obj_lookup "result" fields = Some result ->
     process_lines loads dumps recurse ctx (line :: post) w
     = process_lines loads dumps recurse ctx post
         (snd (emit (Yield (JStr (nl ++ nl ++ dumps result))) w))).
Proof.
  split; [vm_compute; reflexivity|]. split.
  - intros loads dumps recurse ctx line fields text post w Hc Hty Hm.
    pose proof (handle_text_chunk dumps recurse ctx fields text w Hty Hm) as Hh.
    rewrite (process_lines_carries loads dumps recurse ctx line (JObj fields) post w Hc).
    + unfold bind. rewrite Hh. reflexivity.
    + rewrite Hh. discriminate.
  - intros loads dumps recurse ctx line fields result post w Hc Hty Hm.
    pose proof (handle_inform dumps recurse ctx fields result w Hty Hm) as Hh.
    rewrite (process_lines_carries loads dumps recurse ctx line (JObj fields) post w Hc).
    + unfold bind. rewrite Hh. reflexivity.
    + rewrite Hh. discriminate.
Qed.

Lemma text_chunk_and_inform_fragments_witness :
  process_lines json_loads json_dumps_indent2 (fun _ => ret tt) false
    [chunk_line; inform_line] world_idle
  = process_lines json_loads json_dumps_indent2 (fun _ => ret tt) false []
      (snd (emit (Yield inform_fragment)
              (snd (emit (Yield (JStr "Hi")) world_idle)))).
Proof.
  destruct text_chunk_and_inform_fragments as (_ & Hchunk & Hinform).
  rewrite (Hchunk json_loads json_dumps_indent2 (fun _ => ret tt) false chunk_line
             [("type", JStr "TextChunk"); ("message", JStr "Hi")] (JStr "Hi")
             [inform_line] world_idle ltac:(carries_here) eq_refl eq_refl).
  rewrite (Hinform json_loads json_dumps_indent2 (fun _ => ret tt) false inform_line
             [("type", JStr "Inform"); ("result", JObj [("a", JNum 1)])]
             (JObj [("a", JNum 1)]) [] _ ltac:(carries_here) eq_refl eq_refl).
  reflexivity.
Defined.

(** C9: there are [data:] lines whose payload is JSON, a [TextChunk] event
    without [message] and an [Inform] event without [result], at which the
    loop raises [KeyError]: the lines after them are not processed, and a
    stream that starts with one ends in the error with no fragment. *)
Theorem missing_field_aborts_stream :
  (exists line fields,
     carries json_loads line (JObj fields) /\
     obj_lookup "type" fields = Some (JStr "TextChunk") /\
     forall dumps recurse ctx (post : list string) w,
       process_lines json_loads dumps recurse ctx (line :: post) w
       = (Raise (KeyError "message"), w))
  /\
  (exists line fields,
     carries json_loads line (JObj fields) /\
     obj_lookup "type" fields = Some (JStr "Inform") /\
     forall dumps recurse ctx (post : list string) w,
       process_lines json_loads dumps recurse ctx (line :: post) w
       = (Raise (KeyError "result"), w))
  /\
  (let r := stream_message json_loads json_dumps_indent2 "sid" "hello" true
              world_broken_event in
   fst r = Raise (KeyError "message") /\ fragments (trace (snd r)) = []).
Proof.
  split; [|split].
  - exists chunk_line_no_message, [("type", JStr "TextChunk")].
    split; [carries_here|]. split; [reflexivity|].
    intros dumps recurse ctx post w.
    apply (missing_message_aborts json_loads dumps recurse ctx chunk_line_no_message
             [("type", JStr "TextChunk")]); [carries_here | reflexivity | reflexivity].
  - exists inform_line_no_result, [("type", JStr "Inform")].
    split; [carries_here|]. split; [reflexivity|].
    intros dumps recurse ctx post w.
    apply (missing_result_aborts json_loads dumps recurse ctx inform_line_no_result
             [("type", JStr "Inform")]); [carries_here | reflexivity | reflexivity].
  - vm_compute. split; reflexivity.
Qed.

(** C7 at a reply the code mishandles: the token endpoint answers 200 with
    an [access_token] and an [expires_in] that is a string.  The refresh
    raises [AcquireFailed] around the [TypeError] of the sum, but the cached
    token has already been replaced by the one of the reply, under the
    expiry of the old one. *)
Theorem fetch_raises_after_caching_token :
  let r := _fetch_new_token json_loads world_text_expiry in
  fst r = Raise (AcquireFailed TypeError) /\
  access_token world_text_expiry = JStr "T0" /\
  access_token (snd r) = JStr "T1" /\
  expires_at (snd r) = expires_at world_text_expiry.
Proof. vm_compute. repeat split; reflexivity. Qed.

Lemma get_valid_token_cache_or_refresh_witness :
  (fst (get_valid_token json_loads world_fresh) = Ok (access_token world_fresh) /\
   trace (snd (get_valid_token json_loads world_fresh)) = trace world_fresh /\
   token_endpoint (snd (get_valid_token json_loads world_fresh))
     = token_endpoint world_fresh /\
   access_token (snd (get_valid_token json_loads world_fresh))
     = access_token world_fresh /\
   expires_at (snd (get_valid_token json_loads world_fresh)) = expires_at world_fresh)
  /\
  (token_posts (trace (snd (get_valid_token json_loads world_empty)))
     = S (token_posts (trace world_empty)) /\
   token_endpoint (snd (get_valid_token json_loads world_empty))
     = tl (token_endpoint world_empty) /\
   fst (get_valid_token json_loads world_empty) = Ok (JStr "T1")).
Proof.
  split.
  - apply (proj1 (get_valid_token_cache_or_refresh json_loads world_fresh)).
    + reflexivity.
    + vm_compute. reflexivity.
  - destruct (proj2 (get_valid_token_cache_or_refresh json_loads world_empty)
                (or_introl eq_refl)) as (Hp & He & _).
    split; [exact Hp|]. split; [exact He|]. vm_compute. reflexivity.
Defined.

Lemma fetch_new_token_success_witness :
  exists status body fields tok secs,
    hd NoReply (token_endpoint world_no_expiry) = Reply status body /\
    is_success status = true /\
    json_loads body = Some (JObj fields) /\
    obj_lookup "access_token" fields = Some tok /\
    access_token (refreshed world_no_expiry (JStr "T1") 3600) = tok /\
    expires_at (refreshed world_no_expiry (JStr "T1") 3600)
      = clock world_no_expiry (clock_reads world_no_expiry) + secs /\
    (obj_lookup "expires_in" fields = None -> secs = 3600) /\
    (forall n, obj_lookup "expires_in" fields = Some (JNum n) -> secs = n).
Proof.
  apply (fetch_new_token_success json_loads world_no_expiry
           (refreshed world_no_expiry (JStr "T1") 3600)).
  vm_compute. reflexivity.
Defined.

(** C2 as stated fails where the forced refresh fails: after the 401 the
    token endpoint is not reachable, the request is not sent again and the
    call ends in the error of the refresh, which is not [ApiHttpError]. *)
Lemma retry_skipped_when_refresh_fails :
  let r := _authenticated_request json_loads "GET" "/x" world_refresh_fails in
  api_reply 0 world_refresh_fails = Reply 401 "expired" /\
  fst r = Raise (AcquireFailed TransportError) /\
  api_requests (trace (snd r)) = 1%nat /\
  token_posts (trace (snd r)) = 1%nat.
Proof. vm_compute. repeat split; reflexivity. Qed.

Lemma authenticated_request_retries_once_witness :
  (let r := _authenticated_request json_loads "GET" "/x" world_retry_401 in
   fst r = Raise (ApiHttpError 401 "still expired") /\
   api_requests (trace (snd r)) = 2%nat)
  /\
  (let r := _authenticated_request json_loads "GET" "/x" world_refresh_fails in
   fst r = Raise (AcquireFailed TransportError) /\
   api_requests (trace (snd r)) = 1%nat)
  /\
  (let r := _authenticated_request json_loads "GET" "/x" world_short_token in
   fst r = Raise (AcquireFailed TransportError) /\
   api_requests (trace (snd r)) = 1%nat /\
   token_posts (trace (snd r)) = 2%nat).
Proof.
  split; [|split].
  - destruct (authenticated_request_retries_once json_loads "GET" "/x" world_retry_401)
      as [_ H].
    destruct (H (JStr "T0") (ticked world_retry_401) "expired"
                ltac:(vm_compute; reflexivity) ltac:(vm_compute; reflexivity))
      as (_ & H2 & _ & _).
    destruct (H2 _ (JStr "T1") _ ltac:(vm_compute; reflexivity)
                 ltac:(vm_compute; reflexivity)) as [E C].
    cbv zeta. rewrite E. split; [vm_compute; reflexivity|].
    vm_compute. reflexivity.
  - destruct (authenticated_request_retries_once json_loads "GET" "/x"
                world_refresh_fails) as [_ H].
    destruct (H (JStr "T0") (ticked world_refresh_fails) "expired"
                ltac:(vm_compute; reflexivity) ltac:(vm_compute; reflexivity))
      as (_ & _ & H2 & _).
    destruct (H2 (AcquireFailed TransportError) _ ltac:(vm_compute; reflexivity))
      as [E C].
    cbv zeta. rewrite E. split; [reflexivity|]. simpl snd. rewrite C.
    vm_compute. reflexivity.
  - destruct (authenticated_request_retries_once json_loads "GET" "/x"
                world_short_token) as [_ H].
    destruct (H (JStr "T0") (ticked world_short_token) "expired"
                ltac:(vm_compute; reflexivity) ltac:(vm_compute; reflexivity))
      as (_ & _ & _ & H2).
    destruct (H2 _ (AcquireFailed TransportError) _ ltac:(vm_compute; reflexivity)
                 ltac:(vm_compute; reflexivity)) as [E C].
    cbv zeta. rewrite E. split; [reflexivity|]. simpl snd. rewrite C.
    vm_compute. split; reflexivity.
Defined.

(** C1 as stated fails on the outer stream's remaining lines: the outer
    stream asks, the answer Paris is accepted, the stream opened for the
    answer yields the [Inform] fragment, and then the line after the
    question in the outer stream still yields [Hi]. *)
Lemma outer_lines_resume_after_accept :
  let out := fragments (trace (snd (stream_message json_loads json_dumps_indent2
                                      "sid" "hello" true world_accept))) in
  let inner := fragments (trace (snd (stream_message json_loads json_dumps_indent2
                                        "sid" "Paris" true
                                        world_answer_stream))) in
  inner = [inform_fragment] /\
  out = (paris_fragment :: inner ++ [JStr "Hi"])%list /\
  out <> paris_fragment :: inner.
Proof. vm_compute. repeat split; try reflexivity. discriminate. Qed.

Lemma inquire_accepted_continues_witness :
  process_lines json_loads json_dumps_indent2
    (fun a => stream_message json_loads json_dumps_indent2 "sid" a true) true
    [inquire_line; chunk_line] world_answer_stream
  = (emit (Yield paris_fragment) ;;;
     stream_message json_loads json_dumps_indent2 "sid" "Paris" true ;;;
     process_lines json_loads json_dumps_indent2
       (fun a => stream_message json_loads json_dumps_indent2 "sid" a true) true
       [chunk_line])
    (snd (ctx_elicit (JStr "Which city?") world_answer_stream)).
Proof.
  apply (inquire_accepted_continues json_loads json_dumps_indent2 "sid" inquire_line
           [("type", JStr "Inquire"); ("message", JStr "Which city?")]
           (JStr "Which city?") "Paris" [chunk_line] world_answer_stream);
    [carries_here | reflexivity | reflexivity | reflexivity].
Defined.


(** A run with a malformed line and a line without the prefix between two
    valid lines. *)
Example malformed_line_between_valid_lines :
  let r := process_lines json_loads json_dumps_indent2 (fun _ => ret tt) false
             [chunk_line; bad_line; "event: ping"; inform_line] world_idle in
  fst r = Ok tt /\
  trace (snd r) = [Yield (JStr "Hi"); WarnNotJson; Yield inform_fragment].
Proof. vm_compute. split; reflexivity. Qed.

(** C6 as stated fails when the question that is declined is asked by the
    stream opened for an accepted answer: the nested call returns, and the
    outer call goes on to yield [Hi]. *)
Lemma decline_in_nested_call_resumes_outer :
  let r := stream_message json_loads json_dumps_indent2 "sid" "hello" true
             world_accept_then_decline in
  elicit_provider world_accept_then_decline 1 (JStr "Which city?") = Declined /\
  fst r = Ok tt /\
  trace (snd r)
  = [StreamOpen "sid" "hello" (JStr "T0"); Elicit (JStr "Which city?");
     Yield paris_fragment; StreamOpen "sid" "Paris" (JStr "T0");
     Elicit (JStr "Which city?"); Yield (JStr "Hi")].
Proof. vm_compute. repeat split; reflexivity. Qed.

Lemma inquire_not_accepted_ends_witness :
  process_lines json_loads json_dumps_indent2
    (fun a => stream_message json_loads json_dumps_indent2 "sid" a true) true
    [inquire_line; chunk_line] (snd (client_stream "sid" "hello" (JStr "T0")
                                       (ticked world_decline)))
  = (Ok tt, snd (ctx_elicit (JStr "Which city?")
                   (snd (client_stream "sid" "hello" (JStr "T0")
                           (ticked world_decline)))))
  /\ stream_message json_loads json_dumps_indent2 "sid" "hello" true world_decline
     = (Ok tt, snd (ctx_elicit (JStr "Which city?")
                      (snd (client_stream "sid" "hello" (JStr "T0")
                              (ticked world_decline))))).
Proof.
  destruct (inquire_not_accepted_ends json_loads json_dumps_indent2
              (fun a => stream_message json_loads json_dumps_indent2 "sid" a true)
              inquire_line [("type", JStr "Inquire"); ("message", JStr "Which city?")]
              (JStr "Which city?") [chunk_line]
              (snd (client_stream "sid" "hello" (JStr "T0") (ticked world_decline)))
              ltac:(carries_here) eq_refl eq_refl ltac:(vm_compute; discriminate))
    as (H1 & _ & H3).
  split; [exact H1|].
  apply (H3 "sid" "hello" (JStr "T0") world_decline (ticked world_decline)
            200 EmptyString []); vm_compute; reflexivity.
Defined.

(** C10 as stated fails for an [Inquire] event without [message]: with no
    context attached the stream ends in [KeyError] and the line after it,
    which would yield [Hi], is not read. *)
Lemma inquire_without_message_raises_without_context :
  let r := process_lines json_loads json_dumps_indent2 (fun _ => ret tt) false
             [inquire_line_no_message; chunk_line] world_idle in
  fst r = Raise (KeyError "message") /\ fragments (trace (snd r)) = [].
Proof. vm_compute. split; reflexivity. Qed.

Lemma no_context_events_are_passed_over_witness :
  process_lines json_loads json_dumps_indent2 (fun _ => ret tt) false
    [progress_line; inquire_line; chunk_line] world_idle
  = process_lines json_loads json_dumps_indent2 (fun _ => ret tt) false
      [chunk_line] world_idle
  /\ process_lines json_loads json_dumps_indent2 (fun _ => ret tt) false
       [inquire_line_no_message; chunk_line] world_idle
     = (Raise (KeyError "message"), world_idle).
Proof.
  split.
  - rewrite (proj1 (no_context_events_are_passed_over json_loads json_dumps_indent2
                      (fun _ => ret tt) progress_line
                      [("type", JStr "ProgressIndicator"); ("message", JStr "Thinking")]
                      [inquire_line; chunk_line] world_idle ltac:(carries_here))
               (or_introl eq_refl)).
    apply (proj1 (no_context_events_are_passed_over json_loads json_dumps_indent2
                    (fun _ => ret tt) inquire_line
                    [("type", JStr "Inquire"); ("message", JStr "Which city?")]
                    [chunk_line] world_idle ltac:(carries_here))).
    right. split; [reflexivity|]. exists (JStr "Which city?"). reflexivity.
  - apply (proj2 (no_context_events_are_passed_over json_loads json_dumps_indent2
                    (fun _ => ret tt) inquire_line_no_message
                    [("type", JStr "Inquire")]
                    [chunk_line] world_idle ltac:(carries_here)));
      reflexivity.
Defined.

(** The scripted runs of [_authenticated_request]: a 401 followed by a 200
    is retried once with the refreshed token. *)
Example retry_after_401_succeeds :
  let r := _authenticated_request json_loads "GET" "/x" world_retry_ok in
  fst r = Ok (200, "done") /\
  trace (snd r)
  = [ApiRequest "GET" "/x" (JStr "T0"); TokenPost; ApiRequest "GET" "/x" (JStr "T1")].
Proof. vm_compute. split; reflexivity. Qed.

(** The scripted runs of [stream_message]: a declined question ends the
    stream before its next line, an accepted one opens a second stream on the
    same session. *)
Example declined_question_run :
  let r := stream_message json_loads json_dumps_indent2 "sid" "hello" true world_decline in
  fst r = Ok tt /\
  trace (snd r) = [StreamOpen "sid" "hello" (JStr "T0"); Elicit (JStr "Which city?")].
Proof. vm_compute. split; reflexivity. Qed.

Example accepted_question_run :
  let r := stream_message json_loads json_dumps_indent2 "sid" "hello" true world_accept in
  fst r = Ok tt /\
  trace (snd r)
  = [StreamOpen "sid" "hello" (JStr "T0"); Elicit (JStr "Which city?");
     Yield paris_fragment; StreamOpen "sid" "Paris" (JStr "T0");
     Yield inform_fragment; Yield (JStr "Hi")].
Proof. vm_compute. split; reflexivity. Qed.

(** ** Scripted runs of the further properties *)

Lemma auth_manager_raises_runtime_errors_only_witness :
  is_auth_error (AcquireFailed TransportError) = true /\
  is_auth_error (OAuthTokenError 400 "invalid_client") = true.
Proof.
  split.
  - apply (proj2 (auth_manager_raises_runtime_errors_only json_loads world_idle
                    (snd (get_valid_token json_loads world_idle))
                    (AcquireFailed TransportError))).
    vm_compute. reflexivity.
  - apply (proj1 (auth_manager_raises_runtime_errors_only json_loads world_token_denied
                    (snd (_fetch_new_token json_loads world_token_denied))
                    (OAuthTokenError 400 "invalid_client"))).
    vm_compute. reflexivity.
Defined.

Lemma get_valid_token_returns_the_cached_token_witness :
  access_token (snd (get_valid_token json_loads world_empty)) = JStr "T1".
Proof.
  apply (get_valid_token_returns_the_cached_token json_loads world_empty _ (JStr "T1")).
  vm_compute. reflexivity.
Defined.



Lemma request_without_401_is_sent_once_witness :
  _authenticated_request json_loads "GET" "/x" world_server_error
  = (settle (Reply 500 "boom"),
     snd (client_request "GET" "/x" (JStr "T0") (ticked world_server_error)))
  /\ trace (snd (client_request "GET" "/x" (JStr "T0") (ticked world_server_error)))
     = (trace (ticked world_server_error) ++ [ApiRequest "GET" "/x" (JStr "T0")])%list.
Proof.
  apply (request_without_401_is_sent_once json_loads "GET" "/x" world_server_error
           (ticked world_server_error) (JStr "T0") (Reply 500 "boom")).
  - vm_compute. reflexivity.
  - reflexivity.
  - intros body H. discriminate H.
Defined.

Lemma no_token_no_request_witness :
  _authenticated_request json_loads "GET" "/x" world_idle
  = (Raise (AcquireFailed TransportError), snd (get_valid_token json_loads world_idle))
  /\ stream_message json_loads json_dumps_indent2 "sid" "hello" true world_idle
     = (Raise (AcquireFailed TransportError), snd (get_valid_token json_loads world_idle)).
Proof.
  apply (no_token_no_request json_loads json_dumps_indent2 "GET" "/x" "sid" "hello" true
           world_idle).
  vm_compute. reflexivity.
Defined.

Lemma stream_failure_is_not_retried_witness :
  stream_message json_loads json_dumps_indent2 "sid" "hello" true world_stream_401
  = (Raise (HTTPStatusError 401 "expired"),
     snd (client_stream "sid" "hello" (JStr "T0") (ticked world_stream_401))).
Proof.
  destruct (stream_failure_is_not_retried json_loads json_dumps_indent2 "sid" "hello"
              true world_stream_401 (ticked world_stream_401) (JStr "T0")
              ltac:(vm_compute; reflexivity)) as (_ & H & _).
  apply (H 401 "expired" [chunk_line]); reflexivity.
Defined.

Lemma odd_payload_aborts_stream_witness :
  process_lines json_loads json_dumps_indent2 (fun _ => ret tt) false
    [number_line; chunk_line] world_idle
  = (Raise TypeError, world_idle).
Proof.
  destruct (odd_payload_aborts_stream json_loads json_dumps_indent2 (fun _ => ret tt)
              false number_line [chunk_line] world_idle eq_refl) as (H & _ & _).
  apply (H (JNum 5)); [vm_compute; reflexivity|].
  right. right. exists 5. reflexivity.
Defined.

Lemma unrecognised_payload_is_ignored_witness :
  process_lines json_loads json_dumps_indent2 (fun _ => ret tt) false
    [other_key_line; chunk_line] world_idle
  = process_lines json_loads json_dumps_indent2 (fun _ => ret tt) false
      [chunk_line] world_idle.
Proof.
  destruct (unrecognised_payload_is_ignored json_loads json_dumps_indent2
              (fun _ => ret tt) false other_key_line [chunk_line] world_idle eq_refl)
    as (H & _).
  apply (H [("other", JNum 1)]); vm_compute; reflexivity.
Defined.

Lemma progress_is_notified_not_yielded_witness :
  process_lines json_loads json_dumps_indent2 (fun _ => ret tt) true
    [progress_line; chunk_line] world_idle
  = process_lines json_loads json_dumps_indent2 (fun _ => ret tt) true [chunk_line]
      (snd (ctx_info "ProgressIndicator = Thinking" world_idle))
  /\ trace (snd (ctx_info "ProgressIndicator = Thinking" world_idle))
     = (trace world_idle ++ [Notify (JStr "ProgressIndicator = Thinking")])%list
  /\ fragments (trace (snd (ctx_info "ProgressIndicator = Thinking" world_idle)))
     = fragments (trace world_idle).
Proof.
  apply (progress_is_notified_not_yielded json_loads json_dumps_indent2
           (fun _ => ret tt) progress_line
           [("type", JStr "ProgressIndicator"); ("message", JStr "Thinking")]
           (JStr "Thinking") [chunk_line] world_idle);
    [carries_here | reflexivity | reflexivity].
Defined.

Lemma sse_payload_strips_a_character_set_witness :
  sse_payload ("data:" ++ String "t" "rue") = sse_payload ("data:" ++ "rue").
Proof.
  apply (proj1 (proj2 (sse_payload_strips_a_character_set "rue"))).
  reflexivity.
Defined.

Lemma session_end_failure_is_swallowed_witness :
  finally_clause json_loads library_text JNull world_idle = (Ok tt, world_idle).
Proof.
  apply (proj2 (proj2 (session_end_failure_is_swallowed json_loads library_text
                         JNull world_idle))).
  reflexivity.
Defined.

Lemma ask_agentforce_stream_fragments_witness :
  fragments (trace (snd (ask_agentforce_stream json_loads json_dumps_indent2
                           agent_one library_text "hello" "key-1" world_ask)))
  = [JStr "Hi"]
  /\
  fragments (trace (snd (ask_agentforce_stream json_loads json_dumps_indent2
                           agent_one library_text "hello" "key-1" world_ask_broken)))
  = [JStr "Hi"; error_fragment library_text (KeyError "message")]
  /\
  fragments (trace (snd (ask_agentforce_stream json_loads json_dumps_indent2
                           agent_one library_text "hello" "key-1" world_server_error)))
  = [error_fragment library_text (ApiHttpError 500 "boom")].
Proof.
  split; [|split].
  - pose proof (ask_agentforce_stream_fragments json_loads json_dumps_indent2
                  agent_one library_text "hello" "key-1" world_ask) as H.
    cbv zeta in H. destruct H as [_ H].
    destruct (H (JStr "S1") _ ltac:(vm_compute; reflexivity)) as [Hok _].
    rewrite (Hok _ ltac:(vm_compute; reflexivity)). vm_compute. reflexivity.
  - pose proof (ask_agentforce_stream_fragments json_loads json_dumps_indent2
                  agent_one library_text "hello" "key-1" world_ask_broken) as H.
    cbv zeta in H. destruct H as [_ H].
    destruct (H (JStr "S1") _ ltac:(vm_compute; reflexivity)) as [_ Herr].
    rewrite (Herr (KeyError "message") _ ltac:(vm_compute; reflexivity)).
    vm_compute. reflexivity.
  - pose proof (ask_agentforce_stream_fragments json_loads json_dumps_indent2
                  agent_one library_text "hello" "key-1" world_server_error) as H.
    cbv zeta in H. destruct H as [H _].
    rewrite (H (ApiHttpError 500 "boom") _ ltac:(vm_compute; reflexivity)).
    reflexivity.
Defined.

Lemma failed_session_start_ends_the_call_witness :
  let r := ask_agentforce_stream json_loads json_dumps_indent2 agent_one library_text
             "hello" "key-1" world_server_error in
  fst r = Ok tt /\
  fragments (trace (snd r)) = [error_fragment library_text (ApiHttpError 500 "boom")] /\
  stream_opens (trace (snd r)) = 0%nat.
Proof.
  destruct (failed_session_start_ends_the_call json_loads json_dumps_indent2 agent_one
              library_text "hello" "key-1" world_server_error _
              (ApiHttpError 500 "boom") ltac:(vm_compute; reflexivity)) as [Ho Ht].
  cbv zeta. rewrite Ho, Ht. split; [reflexivity|]. vm_compute. split; reflexivity.
Defined.


Lemma missing_session_id_is_streamed_on_None_witness :
  let r := ask_agentforce_stream json_loads json_dumps_indent2 agent_one library_text
             "hello" "key-1" world_ask_no_id in
  fst r = Ok tt /\
  trace (snd r)
  = [Notify (JStr "Starting Agentforce session with external key: key-1");
     ApiRequest "POST" "/einstein/ai-agent/v1/agents/agent-1/sessions" (JStr "T0");
     Notify (JStr "Agentforce Session ID received: None. Streaming query...");
     StreamOpen "None" "hello" (JStr "T0");
     Yield (JStr "Hi");
     Notify (JStr "Agentforce stream completed.")].
Proof.
  cbv zeta.
  rewrite (missing_session_id_is_streamed_on_None json_loads json_dumps_indent2
             agent_one library_text "hello" "key-1" world_ask_no_id _
             ltac:(vm_compute; reflexivity)).
  vm_compute. split; reflexivity.
Defined.

(** A whole run: the session is created, the query streamed, the session
    ended; and a run in which the stream breaks and the session cannot be
    ended. *)
Example ask_run :
  let r := ask_agentforce_stream json_loads json_dumps_indent2 agent_one library_text
             "hello" "key-1" world_ask in
  fst r = Ok tt /\
  trace (snd r)
  = [Notify (JStr "Starting Agentforce session with external key: key-1");
     ApiRequest "POST" "/einstein/ai-agent/v1/agents/agent-1/sessions" (JStr "T0");
     Notify (JStr "Agentforce Session ID received: S1. Streaming query...");
     StreamOpen "S1" "hello" (JStr "T0");
     Yield (JStr "Hi");
     Notify (JStr "Agentforce stream completed.");
     ApiRequest "DELETE" "/einstein/ai-agent/v1/sessions/S1" (JStr "T0");
     Notify (JStr "Agentforce Session S1 ended successfully.")].
Proof. vm_compute. split; reflexivity. Qed.

Example ask_run_broken :
  let r := ask_agentforce_stream json_loads json_dumps_indent2 agent_one library_text
             "hello" "key-1" world_ask_broken in
  fst r = Ok tt /\
  fragments (trace (snd r))
  = [JStr "Hi"; error_fragment library_text (KeyError "message")] /\
  api_requests (trace (snd r)) = 2%nat.
Proof. vm_compute. repeat split; reflexivity. Qed.
